(** * SMS response assistant: the conversation pipeline

    A shallow embedding of [sms-agent-python]: the SQLite store
    ([database/db.py], [database/models.py]), the reply policy and the
    calls to the text generator ([agent/sms_agent.py]) and the coordinator
    ([agent/sms_processor.py]).

    Conventions.
    - A Python [str] is a [string]: a sequence of code points below 256.
    - Integers and clock readings are [Z].
    - [None] is [None]; a raised exception is the [Raised] case of [Result].
      The exceptions are those that [except Exception] catches; the
      cancellation of a task is not among them and is not modelled.
    - The store is a record of two tables, each the list of its rows in
      rowid order.  [schema.sql] is not among the sources: what the code
      leaves to it (generated ids, column defaults) is marked where used. *)

From Stdlib Require Import ZArith List String Ascii Bool Lia Arith.
From Stdlib Require Import Sorting.Sorted.
Import ListNotations.

Open Scope string_scope.
Open Scope Z_scope.

(** ** Python [str] operations used by the agent *)

Module PyStr.

Definition code (c : ascii) : nat := nat_of_ascii c.

Definition between (lo hi n : nat) : bool := ((lo <=? n) && (n <=? hi))%nat.

(** Characters with a lowercase mapping: A-Z, and in Latin-1 the letters
    0xC0-0xDE without the multiplication sign 0xD7. *)
Definition is_upper (c : ascii) : bool :=
  between 65 90 (code c)
  || (between 192 222 (code c) && negb (code c =? 215)%nat).

Definition lower_char (c : ascii) : ascii :=
  if is_upper c then ascii_of_nat (code c + 32) else c.

(** [str.lower] *)
Fixpoint lower (s : string) : string :=
  match s with
  | EmptyString => EmptyString
  | String c rest => String (lower_char c) (lower rest)
  end.

(** [str.isspace] for one character: TAB..CR, the separators FS..US,
    space, NEL and the no-break space. *)
Definition is_space (c : ascii) : bool :=
  between 9 13 (code c) || between 28 32 (code c)
  || (code c =? 133)%nat || (code c =? 160)%nat.

Fixpoint lstrip (s : string) : string :=
  match s with
  | EmptyString => EmptyString
  | String c rest => if is_space c then lstrip rest else s
  end.

Fixpoint rstrip (s : string) : string :=
  match s with
  | EmptyString => EmptyString
  | String c rest =>
      match rstrip rest with
      | EmptyString => if is_space c then EmptyString else String c EmptyString
      | kept => String c kept
      end
  end.

(** [str.strip] with no argument *)
Definition strip (s : string) : string := rstrip (lstrip s).

(** [len] *)
Definition len (s : string) : nat := String.length s.

Fixpoint startswith (sub s : string) : bool :=
  match sub, s with
  | EmptyString, _ => true
  | String a sub', String b s' => Ascii.eqb a b && startswith sub' s'
  | String _ _, EmptyString => false
  end.

(** [sub in s] *)
Fixpoint contains (sub s : string) : bool :=
  startswith sub s
  || match s with
     | EmptyString => false
     | String _ rest => contains sub rest
     end.

(** Truth value of an [Optional[str]]: [None] and [''] are false. *)
Definition truthy (o : option string) : bool :=
  match o with
  | None => false
  | Some EmptyString => false
  | Some (String _ _) => true
  end.

(** A keyword whose first and last characters are no whitespace: whether
    a text holds it is not changed by stripping the text. *)
Fixpoint last_is_solid (s : string) : bool :=
  match s with
  | EmptyString => false
  | String c EmptyString => negb (is_space c)
  | String _ rest => last_is_solid rest
  end.

Definition solid (s : string) : bool :=
  match s with
  | EmptyString => false
  | String c _ => negb (is_space c) && last_is_solid s
  end.

(** [a or b] on an [Optional[str]] with a [str] default *)
Definition or_default (o : option string) (d : string) : string :=
  if truthy o then match o with Some s => s | None => d end else d.

End PyStr.

(** ** [database/models.py] *)

Inductive Direction := incoming | outgoing.

Module Contact.
Record t := mk {
  id : option Z;
  phone_number : string;
  name : option string;
  relationship : option string;  (* 'family', 'friend', 'work', 'unknown' *)
  trust_level : Z;               (* 0-3 *)
  created_at : option Z;
  updated_at : option Z
}.
End Contact.

Module Message.
Record t := mk {
  id : option Z;
  contact_id : option Z;
  phone_number : string;
  message_text : string;
  direction : Direction;
  timestamp : option Z;
  is_auto_reply : bool
}.
End Message.

(** ** [agent/sms_agent.py]: the reply policy *)

Record SMSContext := {
  contact : Contact.t;
  conversation_history : list Message.t;
  incoming_message : string
}.

Definition urgent_keywords : list string :=
  [ "urgent"; "emergency"; "important"; "asap"; "help"; "call me";
    "need you"; "problem"; "issue"; "trouble"; "hospital"; "accident" ].

Definition sensitive_keywords : list string :=
  [ "password"; "ssn"; "social security"; "bank"; "credit card";
    "pin"; "address"; "personal"; "private" ].

(** [any(keyword in message for keyword in keywords)] *)
Definition any_keyword (keywords : list string) (message : string) : bool :=
  existsb (fun keyword => PyStr.contains keyword message) keywords.

(** The guard of the second rule:
    [context.contact.trust_level == 0 and not context.contact.relationship] *)
Definition unknown_sender (c : Contact.t) : bool :=
  (Contact.trust_level c =? 0) && negb (PyStr.truthy (Contact.relationship c)).

Definition should_auto_reply (context : SMSContext) : bool :=
  let message := PyStr.strip (PyStr.lower (incoming_message context)) in
  if (PyStr.len message <? 3)%nat then false
  else if unknown_sender (contact context) then false
  else if any_keyword urgent_keywords message then false
  else if any_keyword sensitive_keywords message then false
  else true.

(** ** [database/db.py]: the store *)

Record ContactRow := {
  cr_id : Z;
  cr_phone_number : string;
  cr_name : option string;
  cr_relationship : option string;
  cr_trust_level : Z;
  cr_created_at : Z;
  cr_updated_at : Z
}.

Record MessageRow := {
  mr_id : Z;
  mr_contact_id : option Z;
  mr_phone_number : string;
  mr_message_text : string;
  mr_direction : Direction;
  mr_timestamp : Z;
  mr_is_auto_reply : bool
}.

(** The two tables, each in rowid order (the order of insertion: no
    statement of the code deletes a row). *)
Record DB := {
  contacts : list ContactRow;
  messages : list MessageRow
}.

Definition empty_db : DB := {| contacts := []; messages := [] |}.

(** Modelled from the spec: [schema.sql], which declares the tables, is not
    among the sources; ids are "opaque, generated, monotonically ordered".
    [cursor.lastrowid] after an INSERT that gives no id is taken to be one
    more than the largest id of the table, 1 for an empty table, as SQLite
    gives a rowid. *)
Definition next_rowid (ids : list Z) : Z := 1 + fold_right Z.max 0 ids.

Definition contact_of_row (row : ContactRow) : Contact.t :=
  Contact.mk (Some (cr_id row)) (cr_phone_number row) (cr_name row)
             (cr_relationship row) (cr_trust_level row)
             (Some (cr_created_at row)) (Some (cr_updated_at row)).

Definition message_of_row (row : MessageRow) : Message.t :=
  Message.mk (Some (mr_id row)) (mr_contact_id row) (mr_phone_number row)
             (mr_message_text row) (mr_direction row)
             (Some (mr_timestamp row)) (mr_is_auto_reply row).

(** [SELECT * FROM contacts WHERE phone_number = ?] then [fetchone] *)
Definition select_contact (phone : string) (db : DB) : option ContactRow :=
  find (fun row => String.eqb (cr_phone_number row) phone) (contacts db).

(** [get_or_create_contact].  The INSERT names the number, the
    relationship and the trust level; [now] stands for the clock reading
    that the two time columns of the new row take by default and that
    [datetime.now()] gives to the object returned. *)
Definition get_or_create_contact (now : Z) (phone : string) (db : DB)
  : DB * Contact.t :=
  match select_contact phone db with
  | Some row => (db, contact_of_row row)
  | None =>
      let contact_id := next_rowid (map cr_id (contacts db)) in
      let row := {| cr_id := contact_id; cr_phone_number := phone;
                    cr_name := None; cr_relationship := Some "unknown";
                    cr_trust_level := 0;
                    cr_created_at := now; cr_updated_at := now |} in
      ({| contacts := contacts db ++ [row]; messages := messages db |},
       Contact.mk (Some contact_id) phone None (Some "unknown") 0
                  (Some now) (Some now))
  end.

(** One entry of [**updates]: a column of [contacts] with a value of its
    type.  (A key that names no column makes the UPDATE statement itself
    invalid and is outside this type.) *)
Inductive Update :=
| set_id (v : Z)
| set_phone_number (v : string)
| set_created_at (v : Z)
| set_name (v : option string)
| set_relationship (v : option string)
| set_trust_level (v : Z)
| set_updated_at (v : Z).

(** [key not in ['id', 'phone_number', 'created_at']] *)
Definition updatable (u : Update) : bool :=
  match u with
  | set_id _ | set_phone_number _ | set_created_at _ => false
  | _ => true
  end.

(** One [column = ?] of the SET clause *)
Definition assign (row : ContactRow) (u : Update) : ContactRow :=
  match u with
  | set_name v =>
      {| cr_id := cr_id row; cr_phone_number := cr_phone_number row;
         cr_name := v; cr_relationship := cr_relationship row;
         cr_trust_level := cr_trust_level row;
         cr_created_at := cr_created_at row; cr_updated_at := cr_updated_at row |}
  | set_relationship v =>
      {| cr_id := cr_id row; cr_phone_number := cr_phone_number row;
         cr_name := cr_name row; cr_relationship := v;
         cr_trust_level := cr_trust_level row;
         cr_created_at := cr_created_at row; cr_updated_at := cr_updated_at row |}
  | set_trust_level v =>
      {| cr_id := cr_id row; cr_phone_number := cr_phone_number row;
         cr_name := cr_name row; cr_relationship := cr_relationship row;
         cr_trust_level := v;
         cr_created_at := cr_created_at row; cr_updated_at := cr_updated_at row |}
  | set_updated_at v =>
      {| cr_id := cr_id row; cr_phone_number := cr_phone_number row;
         cr_name := cr_name row; cr_relationship := cr_relationship row;
         cr_trust_level := cr_trust_level row;
         cr_created_at := cr_created_at row; cr_updated_at := v |}
  | set_id _ | set_phone_number _ | set_created_at _ => row
  end.

(** [UPDATE contacts SET <fields>, updated_at = CURRENT_TIMESTAMP
     WHERE phone_number = ?]: the assignments apply left to right, the
    timestamp last, to every row of that phone number. *)
Definition sql_update (now : Z) (phone : string) (fields : list Update)
                      (row : ContactRow) : ContactRow :=
  if String.eqb (cr_phone_number row) phone
  then assign (fold_left assign fields row) (set_updated_at now)
  else row.

Definition update_contact (now : Z) (phone : string) (updates : list Update)
                          (db : DB) : DB :=
  match updates with
  | [] => db
  | _ :: _ =>
      match filter updatable updates with
      | [] => db
      | fields =>
          {| contacts := map (sql_update now phone fields) (contacts db);
             messages := messages db |}
      end
  end.

(** [updates.get('name')] and its like: the value that the keyword
    arguments give to a column, if they name it. *)
Fixpoint given_name (updates : list Update) : option (option string) :=
  match updates with
  | [] => None
  | u :: rest =>
      match given_name rest, u with
      | Some v, _ => Some v
      | None, set_name v => Some v
      | None, _ => None
      end
  end.

Fixpoint given_relationship (updates : list Update) : option (option string) :=
  match updates with
  | [] => None
  | u :: rest =>
      match given_relationship rest, u with
      | Some v, _ => Some v
      | None, set_relationship v => Some v
      | None, _ => None
      end
  end.

Fixpoint given_trust_level (updates : list Update) : option Z :=
  match updates with
  | [] => None
  | u :: rest =>
      match given_trust_level rest, u with
      | Some v, _ => Some v
      | None, set_trust_level v => Some v
      | None, _ => None
      end
  end.

(** [save_message]: [message.id] and [message.timestamp] are not read. *)
(** Modelled from the spec: the INSERT of [save_message] names neither
    [id] nor [timestamp]; the table declaration, in the missing
    [schema.sql], fills them.  The timestamp is "assigned at persistence
    time": the clock reading [now] at the INSERT, a parameter here. *)
Definition inserted_row (message_id now : Z) (message : Message.t) : MessageRow :=
  {| mr_id := message_id;
     mr_contact_id := Message.contact_id message;
     mr_phone_number := Message.phone_number message;
     mr_message_text := Message.message_text message;
     mr_direction := Message.direction message;
     mr_timestamp := now;
     mr_is_auto_reply := Message.is_auto_reply message |}.

Definition save_message (now : Z) (message : Message.t) (db : DB) : DB * Z :=
  let message_id := next_rowid (map mr_id (messages db)) in
  let row := inserted_row message_id now message in
  ({| contacts := contacts db; messages := messages db ++ [row] |}, message_id).

(** The relation that the message log keeps between an earlier and a later
    row: ids grow, timestamps do not go back. *)
Definition follows (earlier later : MessageRow) : Prop :=
  mr_id earlier < mr_id later /\ mr_timestamp earlier <= mr_timestamp later.

(** [ORDER BY timestamp DESC].  SQL leaves the order among rows of equal
    timestamp to the query plan, which the schema's indexes decide:
    [ties_newest_first = false] is a sort that keeps them in rowid order,
    [true] a backward index scan that reverses them. *)
Fixpoint insert_desc (ties_newest_first : bool) (x : MessageRow)
                     (sorted : list MessageRow) : list MessageRow :=
  match sorted with
  | [] => [x]
  | y :: rest =>
      if (mr_timestamp y <? mr_timestamp x)
         || (ties_newest_first && (mr_timestamp y =? mr_timestamp x))
      then x :: sorted
      else y :: insert_desc ties_newest_first x rest
  end.

Definition order_by_timestamp_desc (ties_newest_first : bool)
                                   (rows : list MessageRow) : list MessageRow :=
  fold_left (fun sorted x => insert_desc ties_newest_first x sorted) rows [].

(** [LIMIT ?]: a negative bound is no bound. *)
Definition sql_limit {A : Type} (limit : Z) (rows : list A) : list A :=
  if limit <? 0 then rows else firstn (Z.to_nat limit) rows.

Definition select_messages (phone : string) (db : DB) : list MessageRow :=
  filter (fun row => String.eqb (mr_phone_number row) phone) (messages db).

Definition get_conversation_history (ties_newest_first : bool) (phone : string)
                                    (limit : Z) (db : DB) : list Message.t :=
  map message_of_row
      (sql_limit limit
         (order_by_timestamp_desc ties_newest_first (select_messages phone db))).

Record Stats := {
  total_contacts : Z;
  total_messages : Z;
  auto_replies_sent : Z
}.

Definition get_stats (db : DB) : Stats :=
  {| total_contacts := Z.of_nat (List.length (contacts db));
     total_messages := Z.of_nat (List.length (messages db));
     auto_replies_sent :=
       Z.of_nat (List.length (filter mr_is_auto_reply (messages db))) |}.

(** ** Collaborator calls and the programs that make them

    The coordinator and the agent are sequences of calls to three
    collaborators: the store, the SDK's [query] and the send callback.  A
    program is the tree of those calls; each call answers with a value or
    raises.  [Ret (Raised e)] is a program that raises [e]. *)

Inductive Exn :=
| StoreError (detail : string)   (* raised by a [sqlite3] call *)
| QueryError (detail : string)   (* raised while consuming [query(...)], a timeout included *)
| SendError (detail : string).   (* raised by the send callback *)

(** [str(error)] *)
Definition str (error : Exn) : string :=
  match error with
  | StoreError detail | QueryError detail | SendError detail => detail
  end.

Inductive Result (A : Type) :=
| Returned (a : A)
| Raised (error : Exn).
Arguments Returned {A} a.
Arguments Raised {A} error.

(** What [query] yields, as far as [_extract_response_text] looks at it *)
Record Block := {
  block_type : option string;
  block_text : string
}.

Inductive Content :=
| content_str (s : string)
| content_list (blocks : list Block)
| content_other.

Record SdkMessage := {
  sdk_type : option string;
  sdk_content : Content
}.

Inductive QueryKind := Generate | Classify.

Module IncomingSMS.
Record t := mk {
  from_number : string;
  body : string;
  timestamp : Z     (* set when the object is built *)
}.
End IncomingSMS.

Module OutgoingSMS.
Record t := mk {
  to_number : string;
  body : string
}.
End OutgoingSMS.

Inductive Call :=
| db_get_or_create_contact (phone : string)
| db_save_message (message : Message.t)
| db_get_conversation_history (phone : string) (limit : Z)
| db_update_contact (phone : string) (updates : list Update)
| sdk_query (kind : QueryKind) (context : SMSContext)
| send_sms_callback (sms : OutgoingSMS.t).

Definition Answer (c : Call) : Type :=
  match c with
  | db_get_or_create_contact _ => Contact.t
  | db_save_message _ => Z
  | db_get_conversation_history _ _ => list Message.t
  | db_update_contact _ _ => unit
  | sdk_query _ _ => list SdkMessage
  | send_sms_callback _ => unit
  end.

Inductive Prog (A : Type) : Type :=
| Ret (r : Result A)
| Do (c : Call) (k : Result (Answer c) -> Prog A).
Arguments Ret {A} r.
Arguments Do {A} c k.

Definition ret {A : Type} (a : A) : Prog A := Ret (Returned a).

Definition call (c : Call) : Prog (Answer c) := Do c Ret.

Fixpoint bind {A B : Type} (p : Prog A) (f : A -> Prog B) : Prog B :=
  match p with
  | Ret (Returned a) => f a
  | Ret (Raised error) => Ret (Raised error)
  | Do c k => Do c (fun r => bind (k r) f)
  end.

(** [try: p  except Exception as error: handler(error)] *)
Fixpoint try_except {A : Type} (p : Prog A) (handler : Exn -> Prog A) : Prog A :=
  match p with
  | Ret (Returned a) => Ret (Returned a)
  | Ret (Raised error) => handler error
  | Do c k => Do c (fun r => try_except (k r) handler)
  end.

Declare Scope prog_scope.
Delimit Scope prog_scope with prog.
Notation "x <- p ;; q" := (bind p (fun x => q))
  (at level 61, p at next level, right associativity) : prog_scope.
Notation "p ;; q" := (bind p (fun _ => q))
  (at level 61, right associativity) : prog_scope.
Open Scope prog_scope.

(** ** [agent/sms_agent.py]: the calls to the generator *)

Definition canned_reply : string :=
  "Thanks for your message! I'll get back to you soon.".

Definition is_type (t : string) (o : option string) : bool :=
  match o with
  | Some s => String.eqb s t
  | None => false
  end.

(** The inner loop over the content blocks: the first block of type
    ['text'] decides. *)
Fixpoint first_text_block (blocks : list Block) : option string :=
  match blocks with
  | [] => None
  | block :: rest =>
      if is_type "text" (block_type block)
      then Some (PyStr.strip (block_text block))
      else first_text_block rest
  end.

Definition text_of_message (message : SdkMessage) : option string :=
  if is_type "assistant" (sdk_type message)
  then match sdk_content message with
       | content_str s => Some (PyStr.strip s)
       | content_list blocks => first_text_block blocks
       | content_other => None
       end
  else None.

Fixpoint first_text (messages : list SdkMessage) : option string :=
  match messages with
  | [] => None
  | message :: rest =>
      match text_of_message message with
      | Some text => Some text
      | None => first_text rest
      end
  end.

(** [for message in reversed(messages): ...] *)
Definition _extract_response_text (messages : list SdkMessage) : option string :=
  first_text (rev messages).

Definition generate_response (context : SMSContext) : Prog string :=
  try_except
    (messages <- call (sdk_query Generate context) ;;
     let response := _extract_response_text messages in
     ret (PyStr.or_default response canned_reply))
    (fun error => ret canned_reply).

Definition relationship_labels : list string :=
  [ "family"; "friend"; "work"; "unknown" ].

Definition is_unknown (relationship : option string) : bool :=
  is_type "unknown" relationship.

Definition classify_relationship (context : SMSContext) : Prog (option string) :=
  if negb (is_unknown (Contact.relationship (contact context)))
  then ret (Contact.relationship (contact context))
  else if (List.length (conversation_history context) <? 3)%nat
  then ret None
  else
    try_except
      (messages <- call (sdk_query Classify context) ;;
       match _extract_response_text messages with
       | Some response =>
           if PyStr.truthy (Some response)
              && existsb (String.eqb (PyStr.lower response)) relationship_labels
           then ret (Some (PyStr.lower response))
           else ret None
       | None => ret None
       end)
      (fun error => ret None).

(** ** [agent/sms_processor.py]: the coordinator *)

(** The dict that [process_incoming_sms] returns *)
Inductive ProcessingResult :=
| processed (message_id : Z) (contact_id : option Z) (auto_reply_sent : bool)
            (response_text : option string) (should_reply : bool)
| failed (error : string).   (* {'error': ..., 'auto_reply_sent': False} *)

Definition auto_reply_sent_of (result : ProcessingResult) : bool :=
  match result with
  | processed _ _ sent _ _ => sent
  | failed _ => false
  end.

(** [_send_sms_safely]: the callback's exception is logged and raised again. *)
Definition _send_sms_safely (sms : OutgoingSMS.t) : Prog unit :=
  try_except (call (send_sms_callback sms))
             (fun error => Ret (Raised error)).

Definition _update_contact_info (context : SMSContext) : Prog unit :=
  try_except
    (if is_unknown (Contact.relationship (contact context))
        && (3 <=? List.length (conversation_history context))%nat
     then
       relationship <- classify_relationship context ;;
       if PyStr.truthy relationship && negb (is_unknown relationship)
       then
         call (db_update_contact (Contact.phone_number (contact context))
                                 [set_relationship relationship])
       else ret tt
     else ret tt)
    (fun error => ret tt).

(** [callback] tells whether [self.send_sms_callback] is set. *)
Definition process_incoming_sms (callback : bool) (sms : IncomingSMS.t)
  : Prog ProcessingResult :=
  try_except
    (contact <- call (db_get_or_create_contact (IncomingSMS.from_number sms)) ;;
     let incoming_message :=
       Message.mk None (Contact.id contact) (IncomingSMS.from_number sms)
                  (IncomingSMS.body sms) incoming None false in
     message_id <- call (db_save_message incoming_message) ;;
     conversation_history <-
       call (db_get_conversation_history (IncomingSMS.from_number sms) 10) ;;
     let context :=
       {| contact := contact;
          conversation_history := conversation_history;
          incoming_message := IncomingSMS.body sms |} in
     let should_reply := should_auto_reply context in
     result <-
       (if should_reply
        then
          response_text <- generate_response context ;;
          if callback && PyStr.truthy (Some response_text)
          then
            let outgoing_sms :=
              OutgoingSMS.mk (IncomingSMS.from_number sms) response_text in
            _send_sms_safely outgoing_sms ;;
            let outgoing_message :=
              Message.mk None (Contact.id contact) (IncomingSMS.from_number sms)
                         response_text outgoing None true in
            call (db_save_message outgoing_message) ;;
            ret (processed message_id (Contact.id contact) true
                           (Some response_text) should_reply)
          else
            ret (processed message_id (Contact.id contact) false
                           (Some response_text) should_reply)
        else
          ret (processed message_id (Contact.id contact) false None
                         should_reply)) ;;
     _update_contact_info context ;;
     ret result)
    (fun error => ret (failed (str error))).

(** The dict that [send_manual_sms] returns *)
Inductive ManualResult :=
| manual_sent (message_id : Z) (contact_id : option Z)
| manual_failed (error : string).

Definition send_manual_sms (callback : bool) (to_number message : string)
  : Prog ManualResult :=
  try_except
    (contact <- call (db_get_or_create_contact to_number) ;;
     if callback
     then
       _send_sms_safely (OutgoingSMS.mk to_number message) ;;
       let outgoing_message :=
         Message.mk None (Contact.id contact) to_number message outgoing
                    None false in
       message_id <- call (db_save_message outgoing_message) ;;
       ret (manual_sent message_id (Contact.id contact))
     else ret (manual_failed "No SMS sending callback configured"))
    (fun error => ret (manual_failed (str error))).

(** The dict that [get_conversation] returns *)
Inductive ConversationResult :=
| conversation (contact : Contact.t) (messages : list Message.t)
| conversation_failed (error : string).

Definition get_conversation (phone_number : string) (limit : Z)
  : Prog ConversationResult :=
  try_except
    (contact <- call (db_get_or_create_contact phone_number) ;;
     messages <- call (db_get_conversation_history phone_number limit) ;;
     ret (conversation contact messages))
    (fun error => ret (conversation_failed (str error))).

(** ** Running a program

    Everything outside the code is in [Env]: which calls raise, what the
    clock reads during a store call, what the SDK streams back, and how
    the store orders rows of equal timestamp. *)

Record Env := {
  raises : Call -> option Exn;
  clock : Call -> Z;
  sdk_reply : QueryKind -> SMSContext -> list SdkMessage;
  ties_newest_first : bool
}.

(** The state: the store, the texts handed to the send callback that it
    accepted, and every call made so far, oldest first. *)
Record World := {
  store : DB;
  delivered : list OutgoingSMS.t;
  calls : list Call
}.

Definition with_store (w : World) (db : DB) : World :=
  {| store := db; delivered := delivered w; calls := calls w |}.

Definition record_call (c : Call) (w : World) : World :=
  {| store := store w; delivered := delivered w; calls := calls w ++ [c] |}.

(** The effect and the answer of a call that does not raise *)
Definition answer (env : Env) (c : Call) (w : World) : World * Answer c :=
  match c as c0 return World * Answer c0 with
  | db_get_or_create_contact phone =>
      let '(db, contact) :=
        get_or_create_contact (clock env (db_get_or_create_contact phone))
                              phone (store w) in
      (with_store w db, contact)
  | db_save_message message =>
      let '(db, message_id) :=
        save_message (clock env (db_save_message message)) message (store w) in
      (with_store w db, message_id)
  | db_get_conversation_history phone limit =>
      (w, get_conversation_history (ties_newest_first env) phone limit (store w))
  | db_update_contact phone updates =>
      (with_store w
         (update_contact (clock env (db_update_contact phone updates))
                         phone updates (store w)),
       tt)
  | sdk_query kind context => (w, sdk_reply env kind context)
  | send_sms_callback sms =>
      ({| store := store w; delivered := delivered w ++ [sms];
          calls := calls w |}, tt)
  end.

(** A call that raises has no effect but to be recorded. *)
Definition perform (env : Env) (c : Call) (w : World)
  : World * Result (Answer c) :=
  match raises env c with
  | Some error => (record_call c w, Raised error)
  | None =>
      let '(w', a) := answer env c (record_call c w) in (w', Returned a)
  end.

Fixpoint run {A : Type} (env : Env) (p : Prog A) (w : World)
  : World * Result A :=
  match p with
  | Ret r => (w, r)
  | Do c k => let '(w', r) := perform env c w in run env (k r) w'
  end.

Definition initial_world (db : DB) : World :=
  {| store := db; delivered := []; calls := [] |}.

(** ** Units of work on the event loop

    [server/api.py] hands every webhook delivery to a background task that
    awaits [process_incoming_sms].  The tasks share one event loop, one
    store and no lock: a task runs without interruption until it awaits
    something outside the process (the SDK's [query], the send callback),
    and any other task may run before it is resumed. *)

Module Interleaving.

Definition suspends (c : Call) : bool :=
  match c with
  | sdk_query _ _ | send_sms_callback _ => true
  | _ => false
  end.

(** Run a task up to its next suspension point or to its end. *)
Fixpoint advance {A : Type} (env : Env) (p : Prog A) (w : World)
  : World * Prog A :=
  match p with
  | Ret r => (w, Ret r)
  | Do c k =>
      if suspends c then (w, Do c k)
      else let '(w', r) := perform env c w in advance env (k r) w'
  end.

(** The awaited call completes and the task runs on. *)
Definition resume {A : Type} (env : Env) (p : Prog A) (w : World)
  : option (World * Prog A) :=
  match p with
  | Ret _ => None
  | Do c k => let '(w', r) := perform env c w in Some (advance env (k r) w')
  end.

(** The loop: the tasks not yet started, in arrival order, and the tasks
    started, in the order they started. *)
Record Loop (A : Type) := {
  world : World;
  arrived : list (Prog A);
  started : list (Prog A)
}.
Arguments world {A} _.
Arguments arrived {A} _.
Arguments started {A} _.

Inductive Choice :=
| start           (* the oldest task not yet started begins *)
| wake (i : nat). (* the i-th started task is resumed *)

Fixpoint set_nth {A : Type} (i : nat) (x : A) (l : list A) : list A :=
  match l, i with
  | [], _ => []
  | _ :: rest, O => x :: rest
  | y :: rest, S j => y :: set_nth j x rest
  end.

Definition step {A : Type} (env : Env) (choice : Choice) (l : Loop A)
  : option (Loop A) :=
  match choice with
  | start =>
      match arrived l with
      | [] => None
      | p :: later =>
          let '(w', p') := advance env p (world l) in
          Some {| world := w'; arrived := later; started := started l ++ [p'] |}
      end
  | wake i =>
      match nth_error (started l) i with
      | None => None
      | Some p =>
          match resume env p (world l) with
          | None => None
          | Some (w', p') =>
              Some {| world := w'; arrived := arrived l;
                      started := set_nth i p' (started l) |}
          end
      end
  end.

Fixpoint run_schedule {A : Type} (env : Env) (schedule : list Choice)
                      (l : Loop A) : option (Loop A) :=
  match schedule with
  | [] => Some l
  | choice :: rest =>
      match step env choice l with
      | None => None
      | Some l' => run_schedule env rest l'
      end
  end.

Definition is_done {A : Type} (p : Prog A) : bool :=
  match p with
  | Ret _ => true
  | Do _ _ => false
  end.

(** Every task has started and has run to its end. *)
Definition all_done {A : Type} (l : Loop A) : bool :=
  match arrived l with
  | [] => forallb is_done (started l)
  | _ :: _ => false
  end.

(** Two deliveries, in arrival order *)
Definition two_deliveries (callback : bool) (sms1 sms2 : IncomingSMS.t)
                          (w : World) : Loop ProcessingResult :=
  {| world := w;
     arrived := [process_incoming_sms callback sms1;
                 process_incoming_sms callback sms2];
     started := [] |}.

End Interleaving.

(** The texts of the message table, in commit order *)
Definition texts (db : DB) : list string := map mr_message_text (messages db).

(** The row that the coordinator writes for an inbound text *)
Definition incoming_row_of (sms : IncomingSMS.t) (row : MessageRow) : Prop :=
  mr_phone_number row = IncomingSMS.from_number sms
  /\ mr_message_text row = IncomingSMS.body sms
  /\ mr_direction row = incoming
  /\ mr_is_auto_reply row = false.

(** The rows of two deliveries in the table, in the order their units of
    work started: [first_in] once the first unit has started, [both_in]
    once the second has.  [base] is the table before either. *)
Definition first_in (sms1 : IncomingSMS.t) (base : list MessageRow)
                    (db : DB) : Prop :=
  exists r1 more,
    messages db = (base ++ r1 :: more)%list
    /\ incoming_row_of sms1 r1.

Definition both_in (sms1 sms2 : IncomingSMS.t) (base : list MessageRow)
                   (db : DB) : Prop :=
  exists r1 between r2 after,
    messages db = (base ++ r1 :: between ++ r2 :: after)%list
    /\ incoming_row_of sms1 r1 /\ incoming_row_of sms2 r2
    /\ mr_id r1 < mr_id r2.

(** ** Inputs used in examples *)

(** Nothing raises, the clock reads 100 throughout, the generator answers
    "Re: <text>" and the classifier "Friend". *)
Definition quiet_env : Env :=
  {| raises := fun _ => None;
     clock := fun _ => 100;
     sdk_reply := fun kind context =>
       match kind with
       | Generate =>
           [ {| sdk_type := Some "assistant";
                sdk_content := content_str ("Re: " ++ incoming_message context) |} ]
       | Classify =>
           [ {| sdk_type := Some "assistant";
                sdk_content :=
                  content_list [ {| block_type := Some "text";
                                    block_text := "Friend" |} ] |} ]
       end;
     ties_newest_first := false |}.

Definition first_text_in : Message.t :=
  Message.mk None (Some 1) "+15550001111" "first" incoming None false.

Definition second_text_in : Message.t :=
  Message.mk None (Some 1) "+15550001111" "second" incoming None false.

(** Two messages of one number committed while the clock reads 100 *)
Definition same_second_db : DB :=
  fst (save_message 100 second_text_in
         (fst (save_message 100 first_text_in
                 (fst (get_or_create_contact 100 "+15550001111" empty_db))))).

(** As [quiet_env], but every call to the generator times out. *)
Definition generator_down : Env :=
  {| raises := fun c =>
       match c with
       | sdk_query Generate _ => Some (QueryError "timed out")
       | _ => None
       end;
     clock := clock quiet_env;
     sdk_reply := sdk_reply quiet_env;
     ties_newest_first := false |}.


Definition lunch_sms : IncomingSMS.t :=
  IncomingSMS.mk "+15550001111" "want to grab lunch?" 0.

Definition first_sms : IncomingSMS.t :=
  IncomingSMS.mk "+15550001111" "first message" 0.

Definition second_sms : IncomingSMS.t :=
  IncomingSMS.mk "+15550001111" "second message" 1.

(** As [quiet_env], but the classifier says "Friend" of a history of three
    messages and "Work" of any other. *)
Definition two_opinions : Env :=
  {| raises := fun _ => None;
     clock := clock quiet_env;
     sdk_reply := fun kind context =>
       match kind with
       | Generate => sdk_reply quiet_env Generate context
       | Classify =>
           [ {| sdk_type := Some "assistant";
                sdk_content :=
                  content_str
                    (if (List.length (conversation_history context) =? 3)%nat
                     then "Friend" else "Work") |} ]
       end;
     ties_newest_first := false |}.

(** The relationship stored for a number *)
Definition stored_relationship (phone : string) (w : World) : option (option string) :=
  option_map cr_relationship (select_contact phone (store w)).

(** * Properties *)

(** ** Strings *)

Section StringFacts.

Import PyStr.

Lemma startswith_spec (sub s : string) :
  startswith sub s = true <-> exists post, s = sub ++ post.
Proof.
  revert s; induction sub as [|a sub IH]; intros s; simpl.
  - split; [intros _; now exists s | reflexivity].
  - destruct s as [|b s]; simpl.
    + split; [discriminate | intros [post H]; discriminate].
    + rewrite andb_true_iff, Ascii.eqb_eq, IH. split.
      * intros [-> [post ->]]. now exists post.
      * intros [post H]. injection H as -> ->. split; [reflexivity | now exists post].
Qed.

Lemma contains_spec (sub s : string) :
  contains sub s = true <-> exists pre post, s = pre ++ sub ++ post.
Proof.
  induction s as [|c s IH]; simpl; rewrite orb_true_iff, startswith_spec.
  - split.
    + intros [[post H] | H]; [| discriminate].
      exists EmptyString, post. exact H.
    + intros [pre [post H]]. left. destruct pre; [| discriminate].
      now exists post.
  - rewrite IH. split.
    + intros [[post H] | [pre [post H]]].
      * exists EmptyString, post. exact H.
      * exists (String c pre), post. simpl. now rewrite H.
    + intros [pre [post H]]. destruct pre as [|a pre]; simpl in H.
      * left. now exists post.
      * right. injection H as _ H. now exists pre, post.
Qed.

Lemma append_assoc (a b c : string) : (a ++ b) ++ c = a ++ b ++ c.
Proof. induction a; simpl; congruence. Qed.

Lemma append_nil_r (a : string) : a ++ EmptyString = a.
Proof. induction a; simpl; congruence. Qed.

(** What stripping removes is whitespace at the two ends. *)
Lemma lstrip_split (s : string) : exists lead, s = lead ++ lstrip s.
Proof.
  induction s as [|c s [lead IH]]; simpl.
  - now exists EmptyString.
  - destruct (is_space c).
    + exists (String c lead). simpl. now rewrite <- IH.
    + now exists EmptyString.
Qed.

Lemma rstrip_split (s : string) : exists trail, s = rstrip s ++ trail.
Proof.
  induction s as [|c s [trail IH]]; simpl.
  - now exists EmptyString.
  - destruct (rstrip s) eqn:E.
    + destruct (is_space c).
      * exists (String c s). reflexivity.
      * exists trail. simpl in *. now rewrite <- IH.
    + exists trail. simpl in *. now rewrite <- IH.
Qed.

Lemma lstrip_keeps (pre rest : string) (c : ascii) :
  is_space c = false ->
  lstrip (pre ++ String c rest) = lstrip pre ++ String c rest.
Proof.
  intros Hc. induction pre as [|a pre IH]; simpl.
  - now rewrite Hc.
  - destruct (is_space a); [exact IH | reflexivity].
Qed.

Lemma rstrip_solid_head (c : ascii) (s : string) :
  is_space c = false -> rstrip (String c s) = String c (rstrip s).
Proof. intros Hc. simpl. rewrite Hc. now destruct (rstrip s). Qed.

Lemma rstrip_keeps (pre rest : string) (c : ascii) :
  is_space c = false ->
  rstrip (pre ++ String c rest) = pre ++ String c (rstrip rest).
Proof.
  intros Hc. induction pre as [|a pre IH].
  - simpl append. now apply rstrip_solid_head.
  - change (String a pre ++ String c rest) with (String a (pre ++ String c rest)).
    cbn [rstrip]. rewrite IH. now destruct pre.
Qed.

Lemma last_is_solid_split (s : string) :
  last_is_solid s = true ->
  exists front c, s = front ++ String c EmptyString /\ is_space c = false.
Proof.
  induction s as [|a s IH]; simpl; [discriminate |].
  destruct s as [|b s].
  - intros H. exists EmptyString, a. split; [reflexivity | now apply negb_true_iff].
  - intros H. destruct (IH H) as [front [c [E Hc]]].
    exists (String a front), c. simpl. now rewrite E.
Qed.

Lemma contains_strip (keyword s : string) :
  solid keyword = true -> contains keyword (strip s) = contains keyword s.
Proof.
  intros Hk. apply eq_true_iff_eq. rewrite !contains_spec. unfold strip.
  destruct keyword as [|k0 krest]; [discriminate |].
  simpl in Hk. apply andb_true_iff in Hk as [Hfirst Hlast].
  apply negb_true_iff in Hfirst.
  destruct (last_is_solid_split (String k0 krest) Hlast) as [front [c [Ek Hc]]].
  split.
  - intros [pre [post H]].
    destruct (lstrip_split s) as [lead Hl], (rstrip_split (lstrip s)) as [trail Hr].
    exists (lead ++ pre), (post ++ trail).
    rewrite Hl at 1. rewrite Hr at 1. rewrite H.
    now rewrite !append_assoc.
  - intros [pre [post H]].
    exists (lstrip pre), (rstrip post). subst s.
    change (String k0 krest ++ post) with (String k0 (krest ++ post)).
    rewrite (lstrip_keeps pre _ k0 Hfirst).
    change (String k0 (krest ++ post)) with (String k0 krest ++ post).
    rewrite Ek, <- !append_assoc.
    rewrite (append_assoc _ (String c EmptyString) post). simpl (String c EmptyString ++ post).
    rewrite (rstrip_keeps _ post c Hc).
    rewrite !append_assoc. reflexivity.
Qed.

Lemma is_space_lower_char (c : ascii) : is_space (lower_char c) = is_space c.
Proof. destruct c as [[] [] [] [] [] [] [] []]; reflexivity. Qed.

Lemma lower_lstrip (s : string) : lstrip (lower s) = lower (lstrip s).
Proof.
  induction s as [|c s IH]; simpl; [reflexivity |].
  rewrite is_space_lower_char. now destruct (is_space c).
Qed.

Lemma lower_rstrip (s : string) : rstrip (lower s) = lower (rstrip s).
Proof.
  induction s as [|c s IH]; simpl; [reflexivity |].
  rewrite IH, is_space_lower_char.
  destruct (rstrip s); simpl; [now destruct (is_space c) | reflexivity].
Qed.

Lemma lower_strip (s : string) : strip (lower s) = lower (strip s).
Proof. unfold strip. now rewrite lower_lstrip, lower_rstrip. Qed.

Lemma len_lower (s : string) : len (lower s) = len s.
Proof. unfold len. induction s; simpl; congruence. Qed.


Lemma any_keyword_strip (keywords : list string) (s : string) :
  forallb solid keywords = true ->
  any_keyword keywords (strip s) = any_keyword keywords s.
Proof.
  unfold any_keyword. induction keywords as [|k ks IH]; simpl; [reflexivity |].
  intros H. apply andb_true_iff in H as [Hk Hks].
  now rewrite (contains_strip k s Hk), (IH Hks).
Qed.

End StringFacts.

(** ** The reply policy *)

Lemma keywords_solid :
  forallb PyStr.solid urgent_keywords = true
  /\ forallb PyStr.solid sensitive_keywords = true.
Proof. split; reflexivity. Qed.

(** The policy as one boolean expression over the text as received: the
    length test looks at the stripped text, the keyword tests at the
    lowercased one. *)
Lemma should_auto_reply_eq (context : SMSContext) :
  let text := incoming_message context in
  should_auto_reply context =
  negb (PyStr.len (PyStr.strip text) <? 3)%nat
  && negb (unknown_sender (contact context))
  && negb (any_keyword urgent_keywords (PyStr.lower text))
  && negb (any_keyword sensitive_keywords (PyStr.lower text)).
Proof.
  intros text. unfold should_auto_reply. fold text.
  destruct keywords_solid as [Hu Hs].
  rewrite !any_keyword_strip by assumption.
  rewrite lower_strip, len_lower.
  destruct (PyStr.len (PyStr.strip text) <? 3)%nat; [reflexivity |].
  destruct (unknown_sender (contact context)); [reflexivity |].
  destruct (any_keyword urgent_keywords (PyStr.lower text)); [reflexivity |].
  now destruct (any_keyword sensitive_keywords (PyStr.lower text)).
Qed.

Lemma unknown_sender_labelled (c : Contact.t) (label : string) :
  Contact.relationship c = Some label -> label <> EmptyString ->
  unknown_sender c = false.
Proof.
  intros H Hl. unfold unknown_sender. rewrite H.
  destruct label; [congruence | simpl]. apply andb_false_r.
Qed.



(** What the unknown-sender guard does.  It withholds the reply from a
    contact of trust level 0 that has no relationship value ([None] or the
    empty string), whatever the text.  A contact whose relationship is the
    label ['unknown'] has a value: it is answered exactly when the stripped
    text has length 3 or more and holds no urgent and no sensitive
    keyword. *)
Lemma should_auto_reply_unknown_sender (context : SMSContext) :
  let text := incoming_message context in
  (Contact.trust_level (contact context) = 0 ->
   PyStr.truthy (Contact.relationship (contact context)) = false ->
   should_auto_reply context = false)
  /\ (Contact.relationship (contact context) = Some "unknown" ->
      should_auto_reply context =
      negb (PyStr.len (PyStr.strip text) <? 3)%nat
      && negb (any_keyword urgent_keywords (PyStr.lower text))
      && negb (any_keyword sensitive_keywords (PyStr.lower text))).
Proof.
  intros text. rewrite should_auto_reply_eq. fold text. split.
  - intros Ht Hr. unfold unknown_sender. rewrite Ht, Hr. simpl.
    now rewrite andb_false_r.
  - intros Hr.
    rewrite (unknown_sender_labelled _ "unknown" Hr) by discriminate.
    simpl. now rewrite andb_true_r.
Qed.

Lemma should_auto_reply_unknown_sender_witness :
  should_auto_reply
    {| contact := Contact.mk (Some 1) "+15550001111" None None 0 None None;
       conversation_history := []; incoming_message := "hello there" |} = false
  /\ should_auto_reply
       {| contact := Contact.mk (Some 1) "+15550001111" None (Some "unknown") 0 None None;
          conversation_history := []; incoming_message := "URGENT: call me" |} = false.
Proof.
  split.
  - apply (proj1 (should_auto_reply_unknown_sender
             {| contact := Contact.mk (Some 1) "+15550001111" None None 0 None None;
                conversation_history := []; incoming_message := "hello there" |}));
      reflexivity.
  - rewrite (proj2 (should_auto_reply_unknown_sender
             {| contact := Contact.mk (Some 1) "+15550001111" None (Some "unknown") 0 None None;
                conversation_history := []; incoming_message := "URGENT: call me" |}));
      reflexivity.
Defined.

(** C1.  The code at the input the claim is about: the contact that
    [get_or_create_contact] makes for a number never seen has trust level 0
    and relationship ['unknown'], its "hello there" has 11 characters, and
    [should_auto_reply] answers true where the claim, and the comments of
    the function, say false; the pipeline then sends the generated reply
    to the new number. *)
Theorem brand_new_contact_is_answered :
  let contact := snd (get_or_create_contact 0 "+15550001111" empty_db) in
  let hello := IncomingSMS.mk "+15550001111" "hello there" 0 in
  Contact.trust_level contact = 0
  /\ Contact.relationship contact = Some "unknown"
  /\ (3 <= PyStr.len (PyStr.strip "hello there"))%nat
  /\ should_auto_reply {| contact := contact; conversation_history := [];
                          incoming_message := "hello there" |} = true
  /\ snd (run quiet_env (process_incoming_sms true hello) (initial_world empty_db))
     = Returned (processed 1 (Some 1) true (Some "Re: hello there") true)
  /\ delivered (fst (run quiet_env (process_incoming_sms true hello)
                         (initial_world empty_db)))
     = [OutgoingSMS.mk "+15550001111" "Re: hello there"].
Proof.
  intros contact hello. repeat split.
  vm_compute. lia.
Qed.

(** ** The store *)

Lemma next_rowid_above (ids : list Z) (i : Z) :
  In i ids -> i < next_rowid ids.
Proof.
  unfold next_rowid. induction ids as [|j ids IH]; cbn [fold_right In]; [tauto |].
  intros [-> | H]; [lia |]. specialize (IH H). lia.
Qed.

Lemma StronglySorted_snoc {A : Type} (R : A -> A -> Prop) (l : list A) (x : A) :
  StronglySorted R l -> Forall (fun y => R y x) l -> StronglySorted R (l ++ [x]).
Proof.
  induction 1 as [|y l Hl IH Hy]; intros Hx; simpl.
  - constructor; constructor.
  - inversion Hx as [|? ? Hyx Hlx]; subst. constructor.
    + now apply IH.
    + apply Forall_app. split; [exact Hy | now constructor].
Qed.

(** C4, as the code has it.  [save_message] appends one row whose
    timestamp is the clock reading at the INSERT, whatever [id] and
    [timestamp] the message object carries; the id it returns is larger
    than every id committed before; and while the clock does not go back,
    the log stays ordered: ids strictly, timestamps weakly. *)
Theorem save_message_follows (now : Z) (message : Message.t) (db : DB) :
  StronglySorted follows (messages db) ->
  (forall earlier, In earlier (messages db) -> mr_timestamp earlier <= now) ->
  let db' := fst (save_message now message db) in
  let message_id := snd (save_message now message db) in
  (exists row,
      messages db' = (messages db ++ [row])%list
      /\ mr_id row = message_id /\ mr_timestamp row = now
      /\ mr_message_text row = Message.message_text message
      /\ mr_phone_number row = Message.phone_number message)
  /\ contacts db' = contacts db
  /\ (forall i t,
        save_message now
          (Message.mk i (Message.contact_id message) (Message.phone_number message)
                      (Message.message_text message) (Message.direction message)
                      t (Message.is_auto_reply message)) db
        = save_message now message db)
  /\ (forall earlier, In earlier (messages db) -> mr_id earlier < message_id)
  /\ StronglySorted follows (messages db').
Proof.
  intros Hsorted Hclock db' message_id.
  assert (Hid : forall earlier, In earlier (messages db) -> mr_id earlier < message_id).
  { intros earlier Hin. apply next_rowid_above. now apply in_map. }
  repeat split.
  - eexists. repeat split.
  - exact Hid.
  - apply StronglySorted_snoc; [exact Hsorted |].
    apply Forall_forall. intros earlier Hin. split; simpl.
    + now apply Hid.
    + now apply Hclock.
Qed.

Lemma save_message_follows_witness :
  StronglySorted follows
    (messages (fst (save_message 100 second_text_in
                      (fst (save_message 100 first_text_in empty_db))))).
Proof.
  apply (save_message_follows 100 second_text_in
           (fst (save_message 100 first_text_in empty_db))).
  - simpl. repeat constructor.
  - intros earlier [<- | []]. unfold inserted_row. cbn [mr_timestamp]. lia.
Defined.

(** C4 as stated fails: two messages of one contact committed under the
    same clock reading carry the same timestamp, so the second one's
    timestamp does not strictly follow the first one's. *)
Lemma save_message_same_reading :
  exists r1 r2,
    messages same_second_db = [r1; r2]
    /\ mr_contact_id r1 = mr_contact_id r2
    /\ mr_phone_number r1 = mr_phone_number r2
    /\ mr_id r1 < mr_id r2
    /\ ~ (mr_timestamp r1 < mr_timestamp r2).
Proof.
  do 2 eexists. split; [reflexivity |]. simpl. repeat split; lia.
Qed.

(** *** [update_contact] *)

Lemma assign_fold_name (fields : list Update) (row : ContactRow) :
  cr_name (fold_left assign fields row)
  = match given_name fields with Some v => v | None => cr_name row end.
Proof.
  revert row. induction fields as [|u rest IH]; intros row; simpl; [reflexivity |].
  rewrite IH. destruct (given_name rest); [reflexivity |]. now destruct u.
Qed.

Lemma assign_fold_relationship (fields : list Update) (row : ContactRow) :
  cr_relationship (fold_left assign fields row)
  = match given_relationship fields with
    | Some v => v
    | None => cr_relationship row
    end.
Proof.
  revert row. induction fields as [|u rest IH]; intros row; simpl; [reflexivity |].
  rewrite IH. destruct (given_relationship rest); [reflexivity |]. now destruct u.
Qed.

Lemma assign_fold_trust_level (fields : list Update) (row : ContactRow) :
  cr_trust_level (fold_left assign fields row)
  = match given_trust_level fields with
    | Some v => v
    | None => cr_trust_level row
    end.
Proof.
  revert row. induction fields as [|u rest IH]; intros row; simpl; [reflexivity |].
  rewrite IH. destruct (given_trust_level rest); [reflexivity |]. now destruct u.
Qed.

Lemma assign_fold_fixed (fields : list Update) (row : ContactRow) :
  cr_id (fold_left assign fields row) = cr_id row
  /\ cr_phone_number (fold_left assign fields row) = cr_phone_number row
  /\ cr_created_at (fold_left assign fields row) = cr_created_at row.
Proof.
  revert row. induction fields as [|u rest IH]; intros row; simpl; [tauto |].
  destruct (IH (assign row u)) as [-> [-> ->]]. now destruct u.
Qed.

(** The filter on the keys drops nothing that names one of the three
    columns. *)
Lemma given_filter (updates : list Update) :
  given_name (filter updatable updates) = given_name updates
  /\ given_relationship (filter updatable updates) = given_relationship updates
  /\ given_trust_level (filter updatable updates) = given_trust_level updates.
Proof.
  induction updates as [|u rest [IHn [IHr IHt]]]; simpl; [tauto |].
  destruct u; simpl; rewrite ?IHn, ?IHr, ?IHt; repeat split;
    repeat match goal with
           | |- context [match ?x with _ => _ end] => destruct x
           end; reflexivity.
Qed.

Lemma sql_update_phone (now : Z) (phone : string) (fields : list Update)
                       (row : ContactRow) :
  cr_phone_number (sql_update now phone fields row) = cr_phone_number row.
Proof.
  unfold sql_update. destruct (String.eqb _ _); [| reflexivity].
  simpl. apply assign_fold_fixed.
Qed.

Lemma select_contact_map (f : ContactRow -> ContactRow) (phone : string)
                         (rows : list ContactRow) :
  (forall row, cr_phone_number (f row) = cr_phone_number row) ->
  find (fun row => String.eqb (cr_phone_number row) phone) (map f rows)
  = option_map f (find (fun row => String.eqb (cr_phone_number row) phone) rows).
Proof.
  intros Hf. induction rows as [|row rows IH]; simpl; [reflexivity |].
  rewrite Hf. destruct (String.eqb (cr_phone_number row) phone); [reflexivity | exact IH].
Qed.

Lemma sql_update_other (now : Z) (phone : string) (fields : list Update)
                       (rows : list ContactRow) :
  find (fun row => String.eqb (cr_phone_number row) phone) rows = None ->
  map (sql_update now phone fields) rows = rows.
Proof.
  induction rows as [|row rows IH]; simpl; [reflexivity |].
  unfold sql_update at 1.
  destruct (String.eqb (cr_phone_number row) phone); [discriminate |].
  intros H. now rewrite IH.
Qed.

(** C5, as the code has it.  [update_contact] touches no message and no
    contact of another number.  For the contact of the number it replaces
    exactly the columns among name, relationship and trust level that the
    keyword arguments name, keeps id, number and creation time, and sets
    [updated_at] to the clock reading, provided at least one argument
    passes the key filter.  When no contact has the number, or no argument
    passes the filter, the store is left as it was; nothing is raised. *)
Theorem update_contact_merges (now : Z) (phone : string)
                              (updates : list Update) (db : DB) :
  let db' := update_contact now phone updates db in
  messages db' = messages db
  /\ (select_contact phone db = None -> db' = db)
  /\ (filter updatable updates = [] -> db' = db)
  /\ (forall row,
        select_contact phone db = Some row ->
        filter updatable updates <> [] ->
        exists row',
          select_contact phone db' = Some row'
          /\ cr_id row' = cr_id row
          /\ cr_phone_number row' = cr_phone_number row
          /\ cr_created_at row' = cr_created_at row
          /\ cr_name row'
             = match given_name updates with Some v => v | None => cr_name row end
          /\ cr_relationship row'
             = match given_relationship updates with
               | Some v => v
               | None => cr_relationship row
               end
          /\ cr_trust_level row'
             = match given_trust_level updates with
               | Some v => v
               | None => cr_trust_level row
               end
          /\ cr_updated_at row' = now)
  /\ (forall other row,
        other <> phone ->
        select_contact other db = Some row ->
        select_contact other db' = Some row).
Proof.
  intros db'. subst db'. unfold update_contact.
  destruct updates as [|u0 rest] eqn:Eu.
  { repeat split; try reflexivity; try tauto; intros row _ H; now elim H. }
  rewrite <- Eu. clear Eu.
  destruct (filter updatable updates) as [|f0 fields] eqn:Ef.
  { repeat split; try reflexivity; try tauto; intros row _ H; now elim H. }
  rewrite <- Ef.
  destruct (given_filter updates) as [Hn [Hr Ht]].
  split; [reflexivity |]. split; [| split; [| split]].
  - intros Hnone. unfold select_contact in Hnone.
    destruct db as [cs ms]. simpl in *. f_equal.
    now apply sql_update_other.
  - rewrite Ef. discriminate.
  - intros row Hrow _. unfold select_contact in *. simpl.
    rewrite select_contact_map by (intros; apply sql_update_phone).
    rewrite Hrow. simpl. eexists. split; [reflexivity |].
    apply find_some in Hrow as [_ Hphone].
    unfold sql_update. rewrite Hphone. simpl.
    destruct (assign_fold_fixed (filter updatable updates) row) as [-> [-> ->]].
    rewrite assign_fold_name, assign_fold_relationship, assign_fold_trust_level.
    rewrite Hn, Hr, Ht. repeat split; reflexivity.
  - intros other row Hother Hrow. unfold select_contact in *. simpl.
    rewrite select_contact_map by (intros; apply sql_update_phone).
    rewrite Hrow. simpl. f_equal.
    apply find_some in Hrow as [_ Hphone]. apply String.eqb_eq in Hphone.
    unfold sql_update.
    destruct (String.eqb (cr_phone_number row) phone) eqn:E; [| reflexivity].
    apply String.eqb_eq in E. congruence.
Qed.

Lemma update_contact_merges_witness :
  let db := fst (get_or_create_contact 7 "+15550001111" empty_db) in
  exists row',
    select_contact "+15550001111"
      (update_contact 100 "+15550001111" [set_relationship (Some "friend")] db)
    = Some row'
    /\ cr_relationship row' = Some "friend"
    /\ cr_name row' = None /\ cr_trust_level row' = 0
    /\ cr_created_at row' = 7 /\ cr_updated_at row' = 100.
Proof.
  intros db.
  destruct (proj1 (proj2 (proj2 (proj2
              (update_contact_merges 100 "+15550001111"
                 [set_relationship (Some "friend")] db))))
              {| cr_id := 1; cr_phone_number := "+15550001111"; cr_name := None;
                 cr_relationship := Some "unknown"; cr_trust_level := 0;
                 cr_created_at := 7; cr_updated_at := 7 |})
    as [row' [Hsel [_ [_ [Hc [Hn [Hr [Ht Hu]]]]]]]].
  - reflexivity.
  - simpl. discriminate.
  - exists row'. simpl in Hc, Hn, Hr, Ht. repeat split; assumption.
Defined.

(** C5 as stated fails: for a number that has no contact, the update is a
    statement that matches no row; the call returns and the store is as it
    was. *)
Lemma update_contact_of_missing_number :
  let request :=
    db_update_contact "+15550009999" [set_relationship (Some "friend")] in
  select_contact "+15550009999" empty_db = None
  /\ update_contact 100 "+15550009999" [set_relationship (Some "friend")] empty_db
     = empty_db
  /\ snd (run quiet_env (call request) (initial_world empty_db)) = Returned tt
  /\ store (fst (run quiet_env (call request) (initial_world empty_db))) = empty_db.
Proof. repeat split. Qed.

(** *** [get_conversation_history] *)







(** Under a plan that returns rows of equal timestamp newest first, it is
    enough that the timestamps do not decrease in commit order. *)
Lemma order_by_newest_first (rows : list MessageRow) :
  StronglySorted (fun a b => mr_timestamp a <= mr_timestamp b) rows ->
  order_by_timestamp_desc true rows = rev rows.
Proof.
  unfold order_by_timestamp_desc.
  assert (G : forall acc,
             StronglySorted (fun a b => mr_timestamp a <= mr_timestamp b) rows ->
             Forall (fun y => Forall (fun x => mr_timestamp y <= mr_timestamp x) rows)
                    acc ->
             fold_left (fun sorted x => insert_desc true x sorted) rows acc
             = (rev rows ++ acc)%list).
  { induction rows as [|x rest IH]; intros acc Hs Hacc; simpl; [reflexivity |].
    inversion Hs as [|? ? Hrest Hx]; subst.
    assert (Hhead : insert_desc true x acc = x :: acc).
    { destruct acc as [|y acc']; simpl; [reflexivity |].
      inversion Hacc as [|? ? Hy _]; subst. inversion Hy as [|? ? Hyx _]; subst.
      destruct (mr_timestamp y <? mr_timestamp x) eqn:E1; [reflexivity |].
      apply Z.ltb_ge in E1.
      replace (mr_timestamp y =? mr_timestamp x) with true; [reflexivity |].
      symmetry. apply Z.eqb_eq. lia. }
    rewrite Hhead, IH; [now rewrite <- app_assoc | exact Hrest |].
    constructor; [exact Hx |].
    eapply Forall_impl; [| exact Hacc]. intros y Hy. now inversion Hy. }
  intros Hs. rewrite G by (exact Hs || constructor). apply app_nil_r.
Qed.

(** A negative limit is no limit. *)
Lemma history_negative_limit (ties : bool) (phone : string) (limit : Z) (db : DB) :
  limit < 0 ->
  List.length (get_conversation_history ties phone limit db)
  = List.length (select_messages phone db).
Proof.
  intros H. unfold get_conversation_history, sql_limit.
  apply Z.ltb_lt in H. rewrite H, length_map.
  unfold order_by_timestamp_desc.
  assert (G : forall rows acc,
             List.length (fold_left (fun sorted x => insert_desc ties x sorted) rows acc)
             = (List.length rows + List.length acc)%nat).
  { induction rows as [|x rest IH]; intros acc; simpl; [reflexivity |].
    rewrite IH.
    assert (L : List.length (insert_desc ties x acc) = S (List.length acc)).
    { induction acc as [|y acc IHacc]; simpl; [reflexivity |].
      destruct (_ || _); simpl; [reflexivity | now rewrite IHacc]. }
    rewrite L. lia. }
  rewrite G. simpl. lia.
Qed.

(** ** Running programs *)

Lemma run_bind {A B : Type} (env : Env) (p : Prog A) (f : A -> Prog B) (w : World) :
  run env (bind p f) w
  = match run env p w with
    | (w', Returned a) => run env (f a) w'
    | (w', Raised error) => (w', Raised error)
    end.
Proof.
  revert w. induction p as [[a | error] | c k IH]; intros w; simpl; try reflexivity.
  destruct (perform env c w) as [w' r]. apply IH.
Qed.

Lemma run_try_except {A : Type} (env : Env) (p : Prog A) (handler : Exn -> Prog A)
                     (w : World) :
  run env (try_except p handler) w
  = match run env p w with
    | (w', Returned a) => (w', Returned a)
    | (w', Raised error) => run env (handler error) w'
    end.
Proof.
  revert w. induction p as [[a | error] | c k IH]; intros w; simpl; try reflexivity.
  destruct (perform env c w) as [w' r]. apply IH.
Qed.

Lemma run_call (env : Env) (c : Call) (w : World) :
  run env (call c) w = perform env c w.
Proof. unfold call. simpl. now destruct (perform env c w). Qed.

Lemma perform_raises (env : Env) (c : Call) (w : World) (error : Exn) :
  raises env c = Some error -> perform env c w = (record_call c w, Raised error).
Proof. intros H. unfold perform. now rewrite H. Qed.

Lemma perform_answers (env : Env) (c : Call) (w : World) :
  raises env c = None ->
  perform env c w
  = (fst (answer env c (record_call c w)),
     Returned (snd (answer env c (record_call c w)))).
Proof.
  intros H. unfold perform. rewrite H.
  now destruct (answer env c (record_call c w)).
Qed.

(** What a call leaves of the world: the list of calls grows by the call,
    the message table only grows, and nothing is taken back from what was
    delivered. *)
Lemma perform_frame (env : Env) (c : Call) (w : World) :
  calls (fst (perform env c w)) = (calls w ++ [c])%list
  /\ (exists more,
        messages (store (fst (perform env c w)))
        = (messages (store w) ++ more)%list)
  /\ (exists more,
        delivered (fst (perform env c w)) = (delivered w ++ more)%list).
Proof.
  unfold perform. destruct (raises env c) as [error |].
  - simpl. repeat split; exists []; now rewrite app_nil_r.
  - destruct c; simpl; repeat split;
      try (exists []; now rewrite app_nil_r);
      try (eexists; reflexivity).
    + destruct (get_or_create_contact _ _ _) eqn:E. reflexivity.
    + unfold get_or_create_contact.
      destruct (select_contact _ _); simpl; exists []; now rewrite app_nil_r.
    + destruct (get_or_create_contact _ _ _) eqn:E. simpl.
      exists []; now rewrite app_nil_r.
    + unfold update_contact. destruct updates; simpl.
      * exists []; now rewrite app_nil_r.
      * destruct (if updatable u then _ else _); simpl;
          exists []; now rewrite app_nil_r.
Qed.

Lemma run_frame {A : Type} (env : Env) (p : Prog A) (w : World) :
  (exists made, calls (fst (run env p w)) = (calls w ++ made)%list)
  /\ (exists more,
        messages (store (fst (run env p w))) = (messages (store w) ++ more)%list)
  /\ (exists more,
        delivered (fst (run env p w)) = (delivered w ++ more)%list).
Proof.
  revert w. induction p as [r | c k IH]; intros w; simpl.
  - repeat split; exists []; now rewrite app_nil_r.
  - destruct (perform_frame env c w) as [Hc [[m1 Hm] [d1 Hd]]].
    destruct (perform env c w) as [w' r]. simpl in *.
    destruct (IH r w') as [[made Hc'] [[m2 Hm'] [d2 Hd']]].
    rewrite Hc', Hm', Hd', Hc, Hm, Hd, <- !app_assoc.
    repeat split; eexists; reflexivity.
Qed.

Lemma find_snoc {A : Type} (f : A -> bool) (l : list A) (x : A) :
  find f l = None -> f x = true -> find f (l ++ [x]) = Some x.
Proof.
  intros Hl Hx. induction l as [|y l IH]; simpl in *.
  - now rewrite Hx.
  - destruct (f y); [discriminate | now apply IH].
Qed.

(** ** The query surface *)

(** C10. [get_conversation] resolves the contact first: for a number that
    has no contact, it appends a contact row of that number with no name,
    relationship ['unknown'] and trust level 0, which later lookups find,
    and [total_contacts] grows by one. *)
Theorem get_conversation_creates_contact (env : Env) (phone : string)
                                         (limit : Z) (w : World) :
  select_contact phone (store w) = None ->
  raises env (db_get_or_create_contact phone) = None ->
  let w' := fst (run env (get_conversation phone limit) w) in
  exists row,
    contacts (store w') = (contacts (store w) ++ [row])%list
    /\ cr_phone_number row = phone
    /\ cr_name row = None
    /\ cr_relationship row = Some "unknown"
    /\ cr_trust_level row = 0
    /\ select_contact phone (store w') = Some row
    /\ total_contacts (get_stats (store w'))
       = total_contacts (get_stats (store w)) + 1.
Proof.
  intros Hnone Hraises w'. subst w'. unfold get_conversation.
  rewrite run_try_except, run_bind, run_call.
  rewrite (perform_answers _ _ _ Hraises).
  cbn [answer record_call store]. unfold get_or_create_contact.
  rewrite Hnone. cbn [fst snd with_store store].
  rewrite run_bind, run_call.
  set (history := db_get_conversation_history phone limit).
  set (row := {| cr_id := next_rowid (map cr_id (contacts (store w)));
                 cr_phone_number := phone; cr_name := None;
                 cr_relationship := Some "unknown"; cr_trust_level := 0;
                 cr_created_at := clock env (db_get_or_create_contact phone);
                 cr_updated_at := clock env (db_get_or_create_contact phone) |}).
  exists row.
  assert (Hfind : find (fun r => String.eqb (cr_phone_number r) phone)
                       (contacts (store w) ++ [row]) = Some row).
  { apply find_snoc; [exact Hnone | apply String.eqb_refl]. }
  assert (Hcount : Z.of_nat (List.length (contacts (store w) ++ [row]))
                   = Z.of_nat (List.length (contacts (store w))) + 1).
  { rewrite length_app. simpl. lia. }
  unfold perform. destruct (raises env history) as [error |]; simpl;
    repeat split; assumption.
Qed.

Lemma get_conversation_creates_contact_witness :
  total_contacts
    (get_stats
       (store (fst (run quiet_env (get_conversation "+15550001111" 20)
                        (initial_world empty_db))))) = 1.
Proof.
  destruct (get_conversation_creates_contact quiet_env "+15550001111" 20
              (initial_world empty_db))
    as [row [_ [_ [_ [_ [_ [_ H]]]]]]];
    [reflexivity | reflexivity | exact H].
Defined.

(** ** Enrichment *)

Lemma known_label_not_unknown (label : string) :
  In label ["family"; "friend"; "work"] -> is_unknown (Some label) = false.
Proof. intros [<- | [<- | [<- | []]]]; reflexivity. Qed.

Lemma accepted_label (label : string) :
  existsb (String.eqb label) relationship_labels = true ->
  is_unknown (Some label) = false ->
  In label ["family"; "friend"; "work"].
Proof.
  unfold is_unknown, is_type. simpl. intros H Hu.
  rewrite Hu in H.
  rewrite !orb_false_r in H.
  apply orb_true_iff in H as [H | H];
    [| apply orb_true_iff in H as [H | H]];
    apply String.eqb_eq in H; subst; simpl; tauto.
Qed.

(** The three ways [_update_contact_info] can go: nothing is asked; the
    classification is asked and nothing comes of it; the classification
    gives one of the three labels and the contact is updated with it. *)
Lemma run_update_contact_info (env : Env) (context : SMSContext) (w : World) :
  let ask := sdk_query Classify context in
  let known := is_unknown (Contact.relationship (contact context)) = false in
  let short := (List.length (conversation_history context) < 3)%nat in
  exists w',
    run env (_update_contact_info context) w = (w', Returned tt)
    /\ ((known \/ short) /\ w' = w
        \/ ~ (known \/ short) /\ w' = record_call ask w
        \/ ~ (known \/ short)
           /\ exists label,
                In label ["family"; "friend"; "work"]
                /\ raises env ask = None
                /\ option_map PyStr.lower
                     (_extract_response_text (sdk_reply env Classify context))
                   = Some label
                /\ w' = fst (perform env
                               (db_update_contact
                                  (Contact.phone_number (contact context))
                                  [set_relationship (Some label)])
                               (record_call ask w))).
Proof.
  intros ask known short. subst known short.
  unfold _update_contact_info, classify_relationship.
  destruct (is_unknown (Contact.relationship (contact context))) eqn:Eu.
  2: { exists w. split; [reflexivity |]. left. tauto. }
  destruct (3 <=? List.length (conversation_history context))%nat eqn:El.
  2: { apply Nat.leb_gt in El. exists w. split; [reflexivity |]. left. tauto. }
  assert (Hlong : ~ (true = false
                     \/ (List.length (conversation_history context) < 3)%nat)).
  { apply Nat.leb_le in El. intros [H | H]; [discriminate | lia]. }
  cbn [andb negb].
  replace (List.length (conversation_history context) <? 3)%nat with false
    by (symmetry; apply Nat.ltb_ge; apply Nat.leb_le in El; exact El).
  rewrite run_try_except, run_bind, run_try_except, run_bind, run_call.
  fold ask. unfold perform.
  destruct (raises env ask) as [error |] eqn:Er.
  { cbn. eexists. split; [reflexivity |]. right. left. tauto. }
  cbn [answer ask record_call].
  destruct (_extract_response_text (sdk_reply env Classify context))
    as [response |] eqn:Ex.
  2: { cbn. eexists. split; [reflexivity |]. right. left. tauto. }
  destruct (PyStr.truthy (Some response)
            && existsb (String.eqb (PyStr.lower response)) relationship_labels)
    eqn:Eok.
  2: { cbn. eexists. split; [reflexivity |]. right. left. tauto. }
  cbn [run ret].
  destruct (PyStr.truthy (Some (PyStr.lower response))
            && negb (is_unknown (Some (PyStr.lower response)))) eqn:Elabel.
  2: { cbn. eexists. split; [reflexivity |]. right. left. tauto. }
  apply andb_true_iff in Eok as [_ Hin].
  apply andb_true_iff in Elabel as [_ Hnot]. apply negb_true_iff in Hnot.
  pose proof (accepted_label _ Hin Hnot) as Hlabel.
  unfold call. cbn [run].
  set (change := db_update_contact (Contact.phone_number (contact context))
                                   [set_relationship (Some (PyStr.lower response))]).
  exists (fst (perform env change (record_call ask w))). split.
  - unfold perform. now destruct (raises env change) as [error |]; cbn.
  - right. right. split; [exact Hlong |].
    exists (PyStr.lower response). repeat split; assumption.
Qed.

(** What enrichment leaves alone: the message table, the deliveries, the
    contacts of other numbers; and it calls nothing but the classifier and
    the contact update. *)
Lemma update_contact_info_frame (env : Env) (context : SMSContext) (w : World) :
  exists w' made,
    run env (_update_contact_info context) w = (w', Returned tt)
    /\ messages (store w') = messages (store w)
    /\ delivered w' = delivered w
    /\ calls w' = (calls w ++ made)%list
    /\ forall c, In c made ->
         match c with
         | sdk_query Classify _ | db_update_contact _ _ => True
         | _ => False
         end.
Proof.
  destruct (run_update_contact_info env context w)
    as [w' [Hrun [[_ ->] | [[_ ->] | [_ [label [_ [_ [_ ->]]]]]]]]].
  - exists w, []. rewrite app_nil_r. repeat split; [exact Hrun | intros c []].
  - eexists _, [_]. split; [exact Hrun |]. repeat split.
    intros c [<- | []]. exact I.
  - eexists _, [_; _]. split; [exact Hrun |].
    unfold perform. destruct (raises env _); cbn; rewrite <- ?app_assoc;
      repeat split; try (intros c [<- | [<- | []]]; exact I).
    all: unfold update_contact; cbn; reflexivity.
Qed.



(** ** The coordinator *)

Lemma run_generate_response (env : Env) (context : SMSContext) (w : World) :
  let ask := sdk_query Generate context in
  run env (generate_response context) w
  = (record_call ask w,
     Returned
       match raises env ask with
       | Some _ => canned_reply
       | None =>
           PyStr.or_default
             (_extract_response_text (sdk_reply env Generate context))
             canned_reply
       end).
Proof.
  intros ask. unfold generate_response.
  rewrite run_try_except, run_bind, run_call. fold ask. unfold perform.
  now destruct (raises env ask).
Qed.

(** The generated text is never empty. *)
Lemma generated_text_truthy (response : option string) :
  PyStr.truthy (Some (PyStr.or_default response canned_reply)) = true.
Proof. destruct response as [[|c s] |]; reflexivity. Qed.

Lemma run_send_sms_safely (env : Env) (sms : OutgoingSMS.t) (w : World) :
  run env (_send_sms_safely sms) w = perform env (send_sms_callback sms) w.
Proof.
  unfold _send_sms_safely. rewrite run_try_except. unfold call. cbn [run].
  now destruct (perform env (send_sms_callback sms) w) as [w' [a | error]].
Qed.

(** [process_incoming_sms], call by call: where it stops and what it
    returns, by which calls raise. *)
Lemma run_process_incoming_sms (env : Env) (callback : bool)
                               (sms : IncomingSMS.t) (w : World) :
  let sender := IncomingSMS.from_number sms in
  let resolve := db_get_or_create_contact sender in
  let w1 := fst (answer env resolve (record_call resolve w)) in
  let contact : Contact.t := snd (answer env resolve (record_call resolve w)) in
  let write :=
    db_save_message
      (Message.mk None (Contact.id contact) sender (IncomingSMS.body sms)
                  incoming None false) in
  let w2 := fst (answer env write (record_call write w1)) in
  let message_id : Z := snd (answer env write (record_call write w1)) in
  let read := db_get_conversation_history sender 10 in
  let w3 := record_call read w2 in
  let context :=
    {| contact := contact;
       conversation_history :=
         get_conversation_history (ties_newest_first env) sender 10 (store w2);
       incoming_message := IncomingSMS.body sms |} in
  let ask := sdk_query Generate context in
  let w4 := record_call ask w3 in
  let text :=
    match raises env ask with
    | Some _ => canned_reply
    | None =>
        PyStr.or_default
          (_extract_response_text (sdk_reply env Generate context)) canned_reply
    end in
  let send := send_sms_callback (OutgoingSMS.mk sender text) in
  let w5 := fst (answer env send (record_call send w4)) in
  let write_reply :=
    db_save_message
      (Message.mk None (Contact.id contact) sender text outgoing None true) in
  let w6 := fst (answer env write_reply (record_call write_reply w5)) in
  let enrich (w0 : World) (result : ProcessingResult) :=
    (fst (run env (_update_contact_info context) w0), Returned result) in
  run env (process_incoming_sms callback sms) w
  = match raises env resolve with
    | Some error => (record_call resolve w, Returned (failed (str error)))
    | None =>
    match raises env write with
    | Some error => (record_call write w1, Returned (failed (str error)))
    | None =>
    match raises env read with
    | Some error => (record_call read w2, Returned (failed (str error)))
    | None =>
        if should_auto_reply context
        then
          if callback
          then
            match raises env send with
            | Some error => (record_call send w4, Returned (failed (str error)))
            | None =>
            match raises env write_reply with
            | Some error =>
                (record_call write_reply w5, Returned (failed (str error)))
            | None =>
                enrich w6 (processed message_id (Contact.id contact) true
                                     (Some text) true)
            end
            end
          else
            enrich w4 (processed message_id (Contact.id contact) false
                                 (Some text) true)
        else
          enrich w3 (processed message_id (Contact.id contact) false None false)
    end
    end
    end.
Proof.
  intros sender resolve w1 contact write w2 message_id read w3 context ask w4
         text send w5 write_reply w6 enrich.
  assert (Henrich : forall w0 result,
            match run env (_update_contact_info context ;; ret result) w0 with
            | (w', Returned a) => (w', Returned a)
            | (w', Raised error) => run env (ret (failed (str error))) w'
            end = enrich w0 result).
  { intros w0 result. rewrite run_bind. subst enrich. cbn beta.
    destruct (update_contact_info_frame env context w0) as [w' [made [-> _]]].
    reflexivity. }
  unfold process_incoming_sms. fold sender.
  rewrite run_try_except, run_bind, run_call. fold resolve.
  destruct (raises env resolve) as [error |] eqn:E1.
  { now rewrite (perform_raises _ _ _ _ E1). }
  rewrite (perform_answers _ _ _ E1). fold w1 contact. cbv beta.
  rewrite run_bind, run_call. fold write.
  destruct (raises env write) as [error |] eqn:E2.
  { now rewrite (perform_raises _ _ _ _ E2). }
  rewrite (perform_answers _ _ _ E2). fold w2 message_id. cbv beta.
  rewrite run_bind, run_call. fold read.
  destruct (raises env read) as [error |] eqn:E3.
  { now rewrite (perform_raises _ _ _ _ E3). }
  rewrite (perform_answers _ _ _ E3).
  change (fst (answer env read (record_call read w2))) with w3.
  change (snd (answer env read (record_call read w2)))
    with (get_conversation_history (ties_newest_first env) sender 10 (store w2)).
  cbv beta zeta. fold context.
  destruct (should_auto_reply context) eqn:Ereply.
  2: { rewrite run_bind. cbn [run ret]. rewrite <- Henrich.
       rewrite run_bind. reflexivity. }
  rewrite run_bind, run_bind, run_generate_response.
  fold ask text w4. cbv beta.
  assert (Htext : PyStr.truthy (Some text) = true).
  { subst text. destruct (raises env ask); [reflexivity |].
    apply generated_text_truthy. }
  rewrite Htext, andb_true_r.
  destruct callback.
  2: { cbn [run ret]. rewrite <- Henrich. rewrite run_bind. reflexivity. }
  rewrite run_bind, run_send_sms_safely. fold send.
  destruct (raises env send) as [error |] eqn:E5.
  { now rewrite (perform_raises _ _ _ _ E5). }
  rewrite (perform_answers _ _ _ E5). fold w5. cbv beta.
  rewrite run_bind, run_call. fold write_reply.
  destruct (raises env write_reply) as [error |] eqn:E6.
  { now rewrite (perform_raises _ _ _ _ E6). }
  rewrite (perform_answers _ _ _ E6). fold w6. cbv beta.
  cbn [run ret]. rewrite <- Henrich. rewrite run_bind. reflexivity.
Qed.

(** What each answered call does to the three parts of the world *)
Lemma calls_answer (env : Env) (c : Call) (w : World) :
  calls (fst (answer env c w)) = calls w.
Proof.
  destruct c; cbn [answer]; try reflexivity.
  - now destruct (get_or_create_contact _ _ _).
Qed.

Lemma delivered_answer (env : Env) (c : Call) (w : World) :
  delivered (fst (answer env c w))
  = match c with
    | send_sms_callback sms => (delivered w ++ [sms])%list
    | _ => delivered w
    end.
Proof.
  destruct c; cbn [answer]; try reflexivity.
  - now destruct (get_or_create_contact _ _ _).
Qed.

Lemma messages_answer (env : Env) (c : Call) (w : World) :
  messages (store (fst (answer env c w)))
  = match c with
    | db_save_message message =>
        (messages (store w)
         ++ [inserted_row (next_rowid (map mr_id (messages (store w))))
                          (clock env c) message])%list
    | _ => messages (store w)
    end.
Proof.
  destruct c; cbn [answer]; try reflexivity.
  - unfold get_or_create_contact. now destruct (select_contact _ _).
  - unfold update_contact. destruct updates; [reflexivity |].
    now destruct (filter updatable (u :: updates)).
Qed.

Lemma calls_record_call (c : Call) (w : World) :
  calls (record_call c w) = (calls w ++ [c])%list.
Proof. reflexivity. Qed.

Lemma delivered_record_call (c : Call) (w : World) :
  delivered (record_call c w) = delivered w.
Proof. reflexivity. Qed.

Lemma store_record_call (c : Call) (w : World) :
  store (record_call c w) = store w.
Proof. reflexivity. Qed.

Create Rewrite HintDb world.
#[local] Hint Rewrite calls_answer delivered_answer messages_answer
  calls_record_call delivered_record_call store_record_call : world.

(** Names for the calls and the worlds along a run of the pipeline *)
Ltac name_pipeline env sms w :=
  set (sender := IncomingSMS.from_number sms) in *;
  set (resolve := db_get_or_create_contact sender) in *;
  set (a1 := answer env resolve (record_call resolve w)) in *;
  set (w1 := fst a1) in *;
  set (contact0 := snd a1) in *;
  set (write := db_save_message
                  (Message.mk None (Contact.id contact0) sender
                              (IncomingSMS.body sms) incoming None false)) in *;
  set (a2 := answer env write (record_call write w1)) in *;
  set (w2 := fst a2) in *;
  set (message_id := snd a2) in *;
  set (read := db_get_conversation_history sender 10) in *;
  set (w3 := record_call read w2) in *;
  set (context0 :=
         {| contact := contact0;
            conversation_history :=
              get_conversation_history (ties_newest_first env) sender 10 (store w2);
            incoming_message := IncomingSMS.body sms |}) in *;
  set (ask := sdk_query Generate context0) in *;
  set (w4 := record_call ask w3) in *;
  set (text := match raises env ask with
               | Some _ => canned_reply
               | None =>
                   PyStr.or_default
                     (_extract_response_text (sdk_reply env Generate context0))
                     canned_reply
               end) in *;
  set (send := send_sms_callback (OutgoingSMS.mk sender text)) in *;
  set (w5 := fst (answer env send (record_call send w4))) in *;
  set (write_reply :=
         db_save_message
           (Message.mk None (Contact.id contact0) sender text outgoing None true)) in *;
  set (w6 := fst (answer env write_reply (record_call write_reply w5))) in *.

Ltac absurd_in H :=
  exfalso; cbn [In app] in H;
  repeat (destruct H as [H | H]; [discriminate H |]);
  exact H.

(** C6.  When the run reaches the generator and that call raises (a
    timeout is an exception like any other), the reply text is the canned
    one.  With a send callback set, the callback is called with it; the
    result is the processed one, with the canned text delivered and logged
    as an auto-reply, unless the delivery or the write of the reply raises
    in turn: the error returned is then that one, never the generator's. *)
Theorem generation_failure_falls_back (env : Env) (callback : bool)
    (sms : IncomingSMS.t) (db : DB) (context : SMSContext) (error : Exn) :
  let outcome := run env (process_incoming_sms callback sms) (initial_world db) in
  let w' := fst outcome in
  let fallback := OutgoingSMS.mk (IncomingSMS.from_number sms) canned_reply in
  In (sdk_query Generate context) (calls w') ->
  raises env (sdk_query Generate context) = Some error ->
  (callback = true -> In (send_sms_callback fallback) (calls w'))
  /\ exists result,
       snd outcome = Returned result
       /\ match result with
          | processed _ _ sent text should_reply =>
              should_reply = true /\ text = Some canned_reply /\ sent = callback
              /\ (callback = true ->
                  In fallback (delivered w')
                  /\ exists row,
                       In row (messages (store w'))
                       /\ mr_message_text row = canned_reply
                       /\ mr_direction row = outgoing
                       /\ mr_is_auto_reply row = true)
          | failed detail =>
              exists c e,
                In c (calls w') /\ raises env c = Some e /\ detail = str e
                /\ (c = send_sms_callback fallback
                    \/ exists reply,
                         c = db_save_message reply
                         /\ Message.direction reply = outgoing
                         /\ Message.message_text reply = canned_reply)
          end.
Proof.
  intros outcome w' fallback. subst outcome w'.
  rewrite run_process_incoming_sms.
  name_pipeline env sms (initial_world db).
  assert (Hc1 : calls w1 = [resolve]) by (subst w1 a1; now autorewrite with world).
  assert (Hc2 : calls w2 = [resolve; write])
    by (subst w2 a2; autorewrite with world; now rewrite Hc1).
  assert (Hc3 : calls w3 = [resolve; write; read])
    by (subst w3; autorewrite with world; now rewrite Hc2).
  assert (Hc4 : calls w4 = [resolve; write; read; ask])
    by (subst w4; autorewrite with world; now rewrite Hc3).
  assert (Hc5 : calls w5 = [resolve; write; read; ask; send])
    by (subst w5; autorewrite with world; now rewrite Hc4).
  assert (Hc6 : calls w6 = [resolve; write; read; ask; send; write_reply])
    by (subst w6; autorewrite with world; now rewrite Hc5).
  intros Hin Hraise.
  destruct (raises env resolve) as [e1 |] eqn:E1.
  { cbn [fst calls record_call initial_world] in Hin. absurd_in Hin. }
  destruct (raises env write) as [e2 |] eqn:E2.
  { cbn [fst calls record_call] in Hin; rewrite ?Hc1, ?Hc2, ?Hc3, ?Hc4, ?Hc5 in Hin. absurd_in Hin. }
  destruct (raises env read) as [e3 |] eqn:E3.
  { cbn [fst calls record_call] in Hin; rewrite ?Hc1, ?Hc2, ?Hc3, ?Hc4, ?Hc5 in Hin. absurd_in Hin. }
  destruct (should_auto_reply context0) eqn:Ereply.
  2: { cbn [fst] in Hin.
       destruct (update_contact_info_frame env context0 w3)
         as [wz [made [Hrun [_ [_ [Hcalls Hmade]]]]]].
       rewrite Hrun in Hin. cbn [fst] in Hin. rewrite Hcalls, Hc3 in Hin.
       apply in_app_or in Hin as [Hin | Hin].
       - absurd_in Hin.
       - now apply Hmade in Hin. }
  assert (Hctx : context = context0).
  { assert (Hcases : In (sdk_query Generate context)
                        [resolve; write; read; ask; send; write_reply]
                     \/ exists c, In c [sdk_query Generate context]
                                   /\ match c with
                                      | sdk_query Classify _
                                      | db_update_contact _ _ => True
                                      | _ => False
                                      end).
    { destruct callback.
      - destruct (raises env send); [| destruct (raises env write_reply)].
        + cbn [fst calls record_call] in Hin; rewrite ?Hc1, ?Hc2, ?Hc3, ?Hc4, ?Hc5 in Hin.
          left. cbn [In app] in Hin |- *. tauto.
        + cbn [fst calls record_call] in Hin; rewrite ?Hc1, ?Hc2, ?Hc3, ?Hc4, ?Hc5 in Hin.
          left. cbn [In app] in Hin |- *. tauto.
        + destruct (update_contact_info_frame env context0 w6)
            as [wz [made [Hrun [_ [_ [Hcalls Hmade]]]]]].
          rewrite Hrun in Hin. cbn [fst] in Hin. rewrite Hcalls, Hc6 in Hin.
          apply in_app_or in Hin as [Hin | Hin]; [now left | right].
          eexists. split; [now left | now apply Hmade].
      - cbn [fst] in Hin.
        destruct (update_contact_info_frame env context0 w4)
          as [wz [made [Hrun [_ [_ [Hcalls Hmade]]]]]].
        rewrite Hrun in Hin. cbn [fst] in Hin. rewrite Hcalls, Hc4 in Hin.
        apply in_app_or in Hin as [Hin | Hin].
        + left. cbn [In app] in Hin |- *. tauto.
        + right. eexists. split; [now left | now apply Hmade]. }
    destruct Hcases as [Hcases | [c [[<- | []] Hc]]]; [| elim Hc].
    cbn [In] in Hcases.
    destruct Hcases as [H | [H | [H | [H | [H | [H | []]]]]]];
      try discriminate H.
    unfold ask in H. now injection H. }
  subst context. fold ask in Hraise.
  assert (Htext : text = canned_reply) by (unfold text; now rewrite Hraise).
  assert (Hsend : send = send_sms_callback fallback)
    by (unfold send, fallback; now rewrite Htext).
  clear Hin.
  destruct callback.
  2: { split; [discriminate |]. eexists. split; [reflexivity |].
       rewrite Htext. repeat split; discriminate. }
  destruct (raises env send) as [e5 |] eqn:E5.
  { cbn [fst snd calls record_call]. rewrite Hc4, <- Hsend. split.
    - intros _. apply in_or_app. right. now left.
    - eexists. split; [reflexivity |]. exists send, e5.
      repeat split; [apply in_or_app; right; now left | exact E5 | now left]. }
  destruct (raises env write_reply) as [e6 |] eqn:E6.
  { cbn [fst snd calls record_call]. rewrite Hc5, <- Hsend. split.
    - intros _. apply in_or_app. left. cbn [In]. tauto.
    - eexists. split; [reflexivity |]. exists write_reply, e6.
      repeat split; [apply in_or_app; right; now left | exact E6 |].
      right. eexists. split; [reflexivity |]. split; [reflexivity | exact Htext]. }
  destruct (update_contact_info_frame env context0 w6)
    as [wz [made [Hrun [Hmessages [Hdelivered [Hcalls _]]]]]].
  rewrite Hrun. cbn [fst snd]. rewrite Hcalls, Hc6, <- Hsend. split.
  - intros _. apply in_or_app. left. cbn [In]. tauto.
  - eexists. split; [reflexivity |]. rewrite Htext.
    repeat split.
    + rewrite Hdelivered. unfold w6, w5. autorewrite with world.
      apply in_or_app. right. left. unfold fallback. now rewrite Htext.
    + rewrite Hmessages. unfold w6. autorewrite with world.
      eexists. split; [apply in_or_app; right; now left |].
      repeat split. exact Htext.
Qed.

Lemma generation_failure_falls_back_witness :
  In (send_sms_callback (OutgoingSMS.mk "+15550001111" canned_reply))
     (calls (fst (run generator_down (process_incoming_sms true lunch_sms)
                      (initial_world empty_db)))).
Proof.
  apply (proj1 (generation_failure_falls_back generator_down true lunch_sms
                  empty_db
                  {| contact :=
                       Contact.mk (Some 1) "+15550001111" None (Some "unknown") 0
                                  (Some 100) (Some 100);
                     conversation_history :=
                       [Message.mk (Some 1) (Some 1) "+15550001111"
                                   "want to grab lunch?" incoming (Some 100) false];
                     incoming_message := "want to grab lunch?" |}
                  (QueryError "timed out")
                  ltac:(vm_compute; do 3 right; left; reflexivity)
                  ltac:(reflexivity))).
  reflexivity.
Defined.






(** In a run of the pipeline on its own, a contact whose stored
    relationship is family, friend or work keeps its row: no step of the
    run changes the contact table. *)
Lemma pipeline_keeps_known_relationship (env : Env) (callback : bool)
    (sms : IncomingSMS.t) (db : DB) (row : ContactRow) (label : string) :
  select_contact (IncomingSMS.from_number sms) db = Some row ->
  cr_relationship row = Some label ->
  In label ["family"; "friend"; "work"] ->
  contacts (store (fst (run env (process_incoming_sms callback sms)
                            (initial_world db))))
  = contacts db.
Proof.
  intros Hrow Hrel Hlabel. rewrite run_process_incoming_sms.
  name_pipeline env sms (initial_world db).
  assert (Ha1 : a1 = (record_call resolve (initial_world db), contact_of_row row)).
  { subst a1 resolve. cbn [answer record_call store initial_world].
    unfold get_or_create_contact. now rewrite Hrow. }
  assert (Hs1 : store w1 = db) by (subst w1; now rewrite Ha1).
  assert (Hknown : is_unknown (Contact.relationship (contact context0)) = false).
  { subst context0 contact0. cbn [contact]. rewrite Ha1. cbn.
    rewrite Hrel. now apply known_label_not_unknown. }
  assert (Henrich : forall w0,
            fst (run env (_update_contact_info context0) w0) = w0).
  { intros w0.
    destruct (run_update_contact_info env context0 w0)
      as [wz [Hrun [[_ ->] | [[Hno _] | [Hno _]]]]];
      [now rewrite Hrun | elim Hno; now left | elim Hno; now left]. }
  assert (Hs2 : contacts (store w2) = contacts db).
  { subst w2 a2 write. cbn [answer save_message store with_store fst record_call
                                 contacts].
    now rewrite Hs1. }
  assert (Hs5 : contacts (store w5) = contacts db) by exact Hs2.
  assert (Hs6 : contacts (store w6) = contacts db).
  { subst w6 write_reply. cbn [answer save_message store with_store fst record_call
                                   contacts].
    exact Hs5. }
  destruct (raises env resolve); [reflexivity |].
  destruct (raises env write); [cbn [fst store record_call]; now rewrite Hs1 |].
  destruct (raises env read); [exact Hs2 |].
  destruct (should_auto_reply context0); [| cbn [fst]; rewrite Henrich; exact Hs2].
  destruct callback; [| cbn [fst]; rewrite Henrich; exact Hs2].
  destruct (raises env send); [exact Hs2 |].
  destruct (raises env write_reply); [exact Hs5 |].
  cbn [fst]. rewrite Henrich. exact Hs6.
Qed.

(** ** Units of work on the event loop *)

Section Loop.

Import Interleaving.

Variable env : Env.

Lemma advance_frame {A : Type} (p : Prog A) (w : World) :
  exists more,
    messages (store (fst (advance env p w))) = (messages (store w) ++ more)%list.
Proof.
  revert w. induction p as [r | c k IH]; intros w; cbn [advance].
  - exists []. now rewrite app_nil_r.
  - destruct (suspends c).
    + exists []. now rewrite app_nil_r.
    + destruct (perform_frame env c w) as [_ [[m1 Hm] _]].
      destruct (perform env c w) as [w' r]. cbn [fst] in Hm.
      destruct (IH r w') as [m2 Hm'].
      exists (m1 ++ m2)%list. now rewrite Hm', Hm, app_assoc.
Qed.

Lemma resume_frame {A : Type} (p p' : Prog A) (w w' : World) :
  resume env p w = Some (w', p') ->
  exists more, messages (store w') = (messages (store w) ++ more)%list.
Proof.
  destruct p as [r | c k]; cbn [resume]; [discriminate |].
  destruct (perform_frame env c w) as [_ [[m1 Hm] _]].
  destruct (perform env c w) as [w1 r]. cbn [fst] in Hm.
  destruct (advance_frame (k r) w1) as [m2 Hm'].
  destruct (advance env (k r) w1) as [w2 p2]. cbn [fst] in Hm'.
  intros H. injection H as <- <-.
  exists (m1 ++ m2)%list. now rewrite Hm', Hm, app_assoc.
Qed.

Lemma advance_step {A : Type} (c : Call) (K : Answer c -> Prog A)
                   (handler : Exn -> Prog A) (w : World) :
  suspends c = false -> raises env c = None ->
  advance env (try_except (a <- call c ;; K a) handler) w
  = advance env
      (try_except (K (snd (answer env c (record_call c w)))) handler)
      (fst (answer env c (record_call c w))).
Proof.
  intros Hs Hr. cbn [call bind try_except advance].
  now rewrite Hs, (perform_answers _ _ _ Hr).
Qed.

(** A unit of work writes its incoming row before it first suspends. *)
Lemma advance_process_incoming_sms (callback : bool) (sms : IncomingSMS.t)
                                   (w : World) :
  (forall c, suspends c = false -> raises env c = None) ->
  exists row more,
    messages (store (fst (advance env (process_incoming_sms callback sms) w)))
    = (messages (store w) ++ row :: more)%list
    /\ mr_id row = next_rowid (map mr_id (messages (store w)))
    /\ incoming_row_of sms row.
Proof.
  intros Hok. unfold process_incoming_sms.
  rewrite advance_step by (reflexivity || (apply Hok; reflexivity)).
  rewrite advance_step by (reflexivity || (apply Hok; reflexivity)).
  match goal with
  | |- context [advance env ?p ?w0] =>
      destruct (advance_frame p w0) as [more Hmore]; rewrite Hmore
  end.
  autorewrite with world. rewrite <- app_assoc. cbn [app].
  eexists _, more. split; [reflexivity |].
  split; [reflexivity |]. repeat split.
Qed.

(** What every step of the loop keeps true once the first unit of work
    has started *)
Lemma step_keeps_rows (callback : bool) (sms1 sms2 : IncomingSMS.t)
                      (base : list MessageRow) (choice : Choice)
                      (l l' : Loop ProcessingResult) :
  (forall c, suspends c = false -> raises env c = None) ->
  arrived l = [process_incoming_sms callback sms2]
  /\ first_in sms1 base (store (world l))
  \/ arrived l = [] /\ both_in sms1 sms2 base (store (world l)) ->
  step env choice l = Some l' ->
  arrived l' = [process_incoming_sms callback sms2]
  /\ first_in sms1 base (store (world l'))
  \/ arrived l' = [] /\ both_in sms1 sms2 base (store (world l')).
Proof.
  intros Hok Hinv Hstep. destruct choice as [| i]; cbn [step] in Hstep.
  - destruct Hinv as [[Harrived [r1 [more1 [Hm1 Hr1]]]] | [Harrived _]];
      rewrite Harrived in Hstep; [| discriminate].
    destruct (advance_process_incoming_sms callback sms2 (world l) Hok)
      as [r2 [more2 [Hm2 [Hid2 Hr2]]]].
    destruct (advance env (process_incoming_sms callback sms2) (world l))
      as [w2 p2]. cbn [fst] in Hm2.
    injection Hstep as <-. cbn [arrived world]. right. split; [reflexivity |].
    exists r1, more1, r2, more2.
    split; [| split; [exact Hr1 | split; [exact Hr2 |]]].
    + rewrite Hm2, Hm1, <- app_assoc. reflexivity.
    + rewrite Hid2. apply next_rowid_above, in_map.
      rewrite Hm1. apply in_or_app. right. now left.
  - destruct (nth_error (started l) i) as [p |]; [| discriminate].
    destruct (resume env p (world l)) as [[w2 p2] |] eqn:Eresume; [| discriminate].
    destruct (resume_frame _ _ _ _ Eresume) as [ext Hext].
    injection Hstep as <-. cbn [arrived world].
    destruct Hinv as [[Harrived [r1 [more1 [Hm1 Hr1]]]]
                     | [Harrived [r1 [between [r2 [after [Hm [Hr1 [Hr2 Hlt]]]]]]]]].
    + left. split; [exact Harrived |].
      exists r1, (more1 ++ ext)%list. split; [| exact Hr1].
      rewrite Hext, Hm1, <- app_assoc. reflexivity.
    + right. split; [exact Harrived |].
      exists r1, between, r2, (after ++ ext)%list.
      split; [| split; [exact Hr1 | split; [exact Hr2 | exact Hlt]]].
      rewrite Hext, Hm, <- !app_assoc. cbn [app]. rewrite <- app_assoc. reflexivity.
Qed.

Lemma run_keeps_rows (callback : bool) (sms1 sms2 : IncomingSMS.t)
                     (base : list MessageRow) (schedule : list Choice)
                     (l final : Loop ProcessingResult) :
  (forall c, suspends c = false -> raises env c = None) ->
  arrived l = [process_incoming_sms callback sms2]
  /\ first_in sms1 base (store (world l))
  \/ arrived l = [] /\ both_in sms1 sms2 base (store (world l)) ->
  run_schedule env schedule l = Some final ->
  arrived final = [process_incoming_sms callback sms2]
  /\ first_in sms1 base (store (world final))
  \/ arrived final = [] /\ both_in sms1 sms2 base (store (world final)).
Proof.
  intros Hok. revert l. induction schedule as [| choice rest IH]; intros l Hinv Hrun;
    cbn [run_schedule] in Hrun.
  - now injection Hrun as <-.
  - destruct (step env choice l) as [l' |] eqn:Estep; [| discriminate].
    apply (IH l'); [| exact Hrun].
    eapply step_keeps_rows; eassumption.
Qed.

End Loop.

(** C2, as the code has it.  Nothing serializes the units of work of one
    number.  What holds under every schedule, when the store calls do not
    raise: each unit writes its incoming row before it first suspends, so
    once both units have started, in arrival order, the row of the first
    message is in the table before the row of the second, with the smaller
    id.  The table as it was comes first. *)
Theorem incoming_rows_in_start_order
    (env : Env) (callback : bool) (sms1 sms2 : IncomingSMS.t) (w : World)
    (schedule : list Interleaving.Choice)
    (final : Interleaving.Loop ProcessingResult) :
  (forall c, Interleaving.suspends c = false -> raises env c = None) ->
  Interleaving.run_schedule env schedule
    (Interleaving.two_deliveries callback sms1 sms2 w) = Some final ->
  Interleaving.arrived final = [] ->
  exists r1 between r2 after,
    messages (store (Interleaving.world final))
    = (messages (store w) ++ r1 :: between ++ r2 :: after)%list
    /\ incoming_row_of sms1 r1 /\ incoming_row_of sms2 r2
    /\ mr_id r1 < mr_id r2.
Proof.
  intros Hok Hrun Hstarted.
  destruct schedule as [| [| i] rest];
    cbn [Interleaving.run_schedule Interleaving.step Interleaving.two_deliveries
         Interleaving.arrived Interleaving.world Interleaving.started] in Hrun.
  - injection Hrun as <-. discriminate.
  - destruct (advance_process_incoming_sms env callback sms1 w Hok)
      as [r1 [more1 [Hm1 [_ Hr1]]]].
    destruct (Interleaving.advance env (process_incoming_sms callback sms1) w)
      as [w1 p1]. cbn [fst] in Hm1.
    set (l1 := {| Interleaving.world := w1;
                  Interleaving.arrived := [process_incoming_sms callback sms2];
                  Interleaving.started := ([] ++ [p1])%list |}) in Hrun.
    assert (Hinv :
      Interleaving.arrived l1 = [process_incoming_sms callback sms2]
      /\ first_in sms1 (messages (store w)) (store (Interleaving.world l1))
      \/ Interleaving.arrived l1 = []
         /\ both_in sms1 sms2 (messages (store w)) (store (Interleaving.world l1))).
    { left. split; [reflexivity |]. now exists r1, more1. }
    destruct (run_keeps_rows env callback sms1 sms2 (messages (store w)) rest l1
                final Hok Hinv Hrun)
      as [[Harrived _] | [_ Hboth]].
    + rewrite Hstarted in Harrived. discriminate.
    + exact Hboth.
  - destruct i; discriminate.
Qed.

Lemma incoming_rows_in_start_order_witness :
  exists final r1 between r2 after,
    Interleaving.run_schedule quiet_env
      [Interleaving.start; Interleaving.start; Interleaving.wake 0;
       Interleaving.wake 0; Interleaving.wake 1; Interleaving.wake 1]
      (Interleaving.two_deliveries true first_sms second_sms
         (initial_world empty_db)) = Some final
    /\ messages (store (Interleaving.world final))
       = (r1 :: between ++ r2 :: after)%list
    /\ mr_message_text r1 = "first message"
    /\ mr_message_text r2 = "second message"
    /\ mr_id r1 < mr_id r2.
Proof.
  assert (E : exists final,
             Interleaving.run_schedule quiet_env
               [Interleaving.start; Interleaving.start; Interleaving.wake 0;
                Interleaving.wake 0; Interleaving.wake 1; Interleaving.wake 1]
               (Interleaving.two_deliveries true first_sms second_sms
                  (initial_world empty_db)) = Some final
             /\ Interleaving.arrived final = []).
  { eexists. split; [vm_compute; reflexivity | reflexivity]. }
  destruct E as [final [Hrun Hstarted]].
  destruct (incoming_rows_in_start_order quiet_env true first_sms second_sms
              (initial_world empty_db) _ final (fun c _ => eq_refl) Hrun Hstarted)
    as [r1 [between [r2 [after [Hm [[_ [Ht1 _]] [[_ [Ht2 _]] Hlt]]]]]]].
  exists final, r1, between, r2, after.
  split; [exact Hrun |]. split; [exact Hm |].
  split; [exact Ht1 |]. split; [exact Ht2 | exact Hlt].
Defined.

(** C2 as stated fails: with both units started before the generator has
    answered the first, the second message is committed between the first
    message and its reply; run one after the other, the two deliveries give
    another table. *)
Lemma second_message_overtakes_first_reply :
  exists final,
    Interleaving.run_schedule quiet_env
      [Interleaving.start; Interleaving.start; Interleaving.wake 0;
       Interleaving.wake 0; Interleaving.wake 1; Interleaving.wake 1]
      (Interleaving.two_deliveries true first_sms second_sms
         (initial_world empty_db)) = Some final
    /\ Interleaving.all_done final = true
    /\ texts (store (Interleaving.world final))
       = ["first message"; "second message";
          "Re: first message"; "Re: second message"]
    /\ texts (store (fst (run quiet_env (process_incoming_sms true second_sms)
                            (fst (run quiet_env
                                    (process_incoming_sms true first_sms)
                                    (initial_world empty_db))))))
       = ["first message"; "Re: first message";
          "second message"; "Re: second message"].
Proof.
  eexists. split; [vm_compute; reflexivity |]. repeat split.
Qed.

(** The contact that a unit of work classifies is the one it read when it
    started.  Two units of one number, both started while the relationship
    is ['unknown'], both ask for a classification: the first stores
    "friend", and the second, whose copy still says ['unknown'], stores
    "work" over it. *)
Lemma stale_contact_is_classified_again :
  exists mid final,
    Interleaving.run_schedule two_opinions
      [Interleaving.start; Interleaving.start; Interleaving.wake 0;
       Interleaving.wake 0; Interleaving.wake 0]
      (Interleaving.two_deliveries true first_sms second_sms
         (initial_world same_second_db)) = Some mid
    /\ stored_relationship "+15550001111" (Interleaving.world mid)
       = Some (Some "friend")
    /\ Interleaving.run_schedule two_opinions
         [Interleaving.wake 1; Interleaving.wake 1; Interleaving.wake 1] mid
       = Some final
    /\ Interleaving.all_done final = true
    /\ stored_relationship "+15550001111" (Interleaving.world final)
       = Some (Some "work").
Proof.
  eexists. eexists. split; [vm_compute; reflexivity |].
  split; [reflexivity |]. split; [vm_compute; reflexivity |].
  split; reflexivity.
Qed.
